(** * Pingo plugin server (server.go): registration, authentication,
      address allocation and listener bootstrap.

    The development embeds the Go source shallowly.  Go strings and byte
    slices are sequences of 8-bit characters; [int] is a 64-bit signed
    integer carried by [Z] with its wrap-around written out; mutable
    receivers ([*rpcServer], [*tcp], [*unix]) become explicit state passing;
    a [panic] is a value of [result]; the operating system (the reader side
    of a connection, [net.Listen], the random source) is scripted by
    explicit oracles. *)

From Stdlib Require Import String Ascii List ZArith Lia Bool Arith.
From Stdlib Require Import Decimal DecimalString DecimalZ.
Import ListNotations.

Local Open Scope string_scope.
Local Open Scope list_scope.
Local Open Scope nat_scope.

(** ** Go primitives used by the source *)

Definition byte := ascii.
Definition error := string.

Module Go.

(** Two's-complement wrap-around of the 64-bit [int]. *)
Definition MaxInt : Z := 2 ^ 63 - 1.
Definition MinInt : Z := - 2 ^ 63.
Definition wrap (z : Z) : Z := (z + 2 ^ 63) mod 2 ^ 64 - 2 ^ 63.

(** [fmt.Sprintf("%d", z)]. *)
Definition itoa (z : Z) : string := NilZero.string_of_int (Z.to_int z).

(** [strings.Join(elems, sep)]. *)
Definition Join (elems : list string) (sep : string) : string :=
  String.concat sep elems.

(** [make([]byte, n)]: n zero bytes. *)
Definition make (n : nat) : list byte := repeat Ascii.zero n.

(** [string(buf)] and [[]byte(s)]. *)
Definition string_of_bytes (buf : list byte) : string :=
  string_of_list_ascii buf.
Definition bytes_of_string (s : string) : list byte :=
  list_ascii_of_string s.

(** [strings.ReplaceAll(s, string(old), string(new))] for one-byte
    patterns. *)
Fixpoint replace_byte (old new : ascii) (s : string) : string :=
  match s with
  | EmptyString => EmptyString
  | String c s' =>
      String (if Ascii.eqb c old then new else c) (replace_byte old new s')
  end.

(** [filepath.FromSlash] for a host whose separator is [sep]. *)
Definition FromSlash (sep : ascii) (p : string) : string :=
  if Ascii.eqb sep "/"%char then p else replace_byte "/"%char sep p.

End Go.

(** Outcome of a Go call that may panic. *)
Inductive result (A : Type) : Type :=
| Ok (a : A)
| Panic (msg : string).
Arguments Ok {A} a.
Arguments Panic {A} msg.

(** ** Connections ([io.ReadWriteCloser])

    The peer is scripted: each entry of [incoming] is what one call of
    [Read] has to offer, some bytes and possibly an error.  [written] holds
    what this side has written to the peer. *)

Definition chunk : Type := list byte * option error.

Record conn := mkConn {
  incoming : list chunk;
  written : list byte;
  closed : bool
}.

Definition set_incoming (c : conn) (s : list chunk) : conn :=
  {| incoming := s; written := written c; closed := closed c |}.

(** [conn.Close()]. *)
Definition Close (c : conn) : conn :=
  {| incoming := incoming c; written := written c; closed := true |}.

(** The loop of [io.ReadAtLeast] with [min = len(buf)]:
    [for n < min && err == nil { nn, err = r.Read(buf[n:]); n += nn }].
    [room] is [len(buf) - n].  A [Read] hands over at most [room] bytes of the
    head entry; an exhausted script answers [0, io.EOF].  The result is the
    bytes stored in the buffer and the script that is left. *)
Fixpoint readLoop (script : list chunk) (room : nat) : list byte * list chunk :=
  match room, script with
  | O, _ => ([], script)
  | _, [] => ([], [])
  | _, (d, e) :: rest =>
      if List.length d <=? room then
        match e with
        | Some _ => (d, rest)
        | None =>
            let (d', rest') := readLoop rest (room - List.length d) in
            (d ++ d', rest')
        end
      else (firstn room d, (skipn room d, e) :: rest)
  end.

(** [io.ReadFull(conn, buf)]: the buffer after the call and the connection.
    The bytes read overwrite the front of [buf]; the rest keeps its content.
    The [(n, err)] result is not modelled: [authConn] discards it. *)
Definition ReadFull (c : conn) (buf : list byte) : list byte * conn :=
  let (d, script') := readLoop (incoming c) (List.length buf) in
  (d ++ skipn (List.length d) buf, set_incoming c script').

(** The bytes a read of [n] bytes gets from the connection. *)
Definition delivered (c : conn) (n : nat) : list byte :=
  fst (readLoop (incoming c) n).

(** ** Reflection ([reflect.TypeOf], [Type.Elem], [Type.Name]) *)

Inductive Kind :=
| Bool | Int | Uint | Float | Complex | String_ | UnsafePointer
| Array | Chan | Func | Interface | Map | Pointer | Slice | Struct.

(** A run-time type: its declared name (empty when the type is not a defined
    type), its printed form (package-qualified for a defined type) and its
    kind; [Composite] types also carry an element type. *)
Inductive rtype :=
| Plain (name str : string) (kind : Kind)
| Composite (name str : string) (kind : Kind) (elem : rtype).

(** [t.Name()], [t.String()] and [t.Kind()]. *)
Definition Name (t : rtype) : string :=
  match t with
  | Plain n _ _ => n
  | Composite n _ _ _ => n
  end.

Definition TypeString (t : rtype) : string :=
  match t with
  | Plain _ s _ => s
  | Composite _ s _ _ => s
  end.

Definition kindOf (t : rtype) : Kind :=
  match t with
  | Plain _ _ k => k
  | Composite _ _ k _ => k
  end.

Definition has_elem (k : Kind) : bool :=
  match k with
  | Array | Chan | Map | Pointer | Slice => true
  | _ => false
  end.

(** [t.Elem()]: panics, naming the type as [t.String()] prints it, unless
    the kind is Array, Chan, Map, Pointer or Slice. *)
Definition Elem (t : rtype) : result rtype :=
  match t with
  | Composite _ s k e =>
      if has_elem k then Ok e
      else Panic ("reflect: Elem of invalid type " ++ s)
  | Plain _ s _ => Panic ("reflect: Elem of invalid type " ++ s)
  end.

(** An [interface{}] value: the nil interface, a non-nil value of some
    dynamic type, or the nil value of a dynamic type that has one (a nil
    pointer, map, slice or channel stored in the interface).  This layer
    looks at the dynamic type only; the engine behind it also dereferences
    a pointer. *)
Inductive iface :=
| Nil
| Val (t : rtype)
| NilOf (t : rtype).

(** [reflect.TypeOf(obj)]: nil for the nil interface. *)
Definition TypeOf (obj : iface) : option rtype :=
  match obj with
  | Nil => None
  | Val t => Some t
  | NilOf t => Some t
  end.

(** Well-formed run-time types carry an element type exactly for the kinds
    that have one. *)
Fixpoint wf_type (t : rtype) : bool :=
  match t with
  | Plain _ _ k => negb (has_elem k)
  | Composite _ _ k e => has_elem k && wf_type e
  end.

(** A value whose type [Elem] can be taken of: not the nil interface, and
    of a kind with elements. *)
Definition dereferenceable (obj : iface) : bool :=
  match obj with
  | Nil => false
  | Val t => has_elem (kindOf t)
  | NilOf t => has_elem (kindOf t)
  end.

(** [struct PingoRpc], and [&PingoRpc{}] as [NewPingoRpc] returns it. *)
Definition PingoRpc_t : rtype := Plain "PingoRpc" "pingo.PingoRpc" Struct.
Definition ptr_to (t : rtype) : rtype :=
  Composite "" ("*" ++ TypeString t) Pointer t.
Definition NewPingoRpc : iface := Val (ptr_to PingoRpc_t).

(** ** Server state *)

Record config := mkConfig {
  proto : string;
  addr : string;
  prefix : string;
  unixdir : string
}.

(** The embedded [*rpc.Server] is the external call-dispatch engine; what
    this layer hands to it is recorded in order, whether or not the engine
    accepts it. *)
Definition rpc_Server : Type := list iface.
Definition rpc_NewServer : rpc_Server := [].

(** [reflect.Indirect(reflect.ValueOf(obj))] is the zero [Value] for the
    nil interface and for a nil pointer. *)
Definition Indirect_is_zero (obj : iface) : bool :=
  match obj with
  | Nil => true
  | Val _ => false
  | NilOf t =>
      match kindOf t with
      | Pointer => true
      | _ => false
      end
  end.

(** [rpc.Server.Register(obj)].  It starts with
    [reflect.Indirect(reflect.ValueOf(obj)).Type().Name()], and [Type] on
    the zero [Value] panics; otherwise it returns, and its error result is
    discarded by the caller. *)
Definition rpc_Register_result (obj : iface) : result unit :=
  if Indirect_is_zero obj
  then Panic "reflect: call of reflect.Value.Type on zero Value"
  else Ok tt.

Definition rpc_Register (s : rpc_Server) (obj : iface)
  : result unit * rpc_Server :=
  (rpc_Register_result obj, s ++ [obj]).

Record rpcServer := mkServer {
  Server : rpc_Server;
  secret : string;
  objs : list string;
  conf : config;
  running : bool
}.

(** ** Authentication *)

(** [func (r *rpcServer) authConn(conn io.Reader) bool]. *)
Definition authConn (r : rpcServer) (c : conn) : bool * conn :=
  let buf := Go.make 64 in
  let (buf, c) := ReadFull c buf in
  if (Go.string_of_bytes buf =? secret r)%string then (true, c)
  else (false, c).

(** Printable characters, and the shape of a secret made by [randstr(64)]. *)
Definition printable (c : ascii) : bool :=
  (32 <=? nat_of_ascii c) && (nat_of_ascii c <=? 126).

Definition secret_ok (s : string) : Prop :=
  String.length s = 64 /\ Forall (fun c => printable c = true) (Go.bytes_of_string s).

(** ** Registration

    [Register] and [register] mutate the server and may panic.  A panic keeps
    the state reached when it was raised, so a caller that recovers sees
    exactly what was done before it. *)

Definition M (A : Type) : Type := rpcServer -> result A * rpcServer.

Definition ret {A} (a : A) : M A := fun r => (Ok a, r).
Definition bind {A B} (m : M A) (k : A -> M B) : M B :=
  fun r =>
    match m r with
    | (Ok a, r') => k a r'
    | (Panic msg, r') => (Panic msg, r')
    end.
Definition panic {A} (msg : string) : M A := fun r => (Panic msg, r).
Definition get : M rpcServer := fun r => (Ok r, r).
Definition modify (f : rpcServer -> rpcServer) : M unit := fun r => (Ok tt, f r).
Definition lift {A} (x : result A) : M A := fun r => (x, r).

Notation "x <- m ;; k" := (bind m (fun x => k))
  (at level 61, m at next level, right associativity).
Notation "m ;;; k" := (bind m (fun _ => k))
  (at level 61, right associativity).

Definition set_objs (l : list string) (r : rpcServer) : rpcServer :=
  {| Server := Server r; secret := secret r; objs := l;
     conf := conf r; running := running r |}.
Definition set_Server (s : rpc_Server) (r : rpcServer) : rpcServer :=
  {| Server := s; secret := secret r; objs := objs r;
     conf := conf r; running := running r |}.
Definition set_running (b : bool) (r : rpcServer) : rpcServer :=
  {| Server := Server r; secret := secret r; objs := objs r;
     conf := conf r; running := b |}.
Definition set_conf (c : config) (r : rpcServer) : rpcServer :=
  {| Server := Server r; secret := secret r; objs := objs r;
     conf := c; running := running r |}.
Definition set_proto (p : string) (c : config) : config :=
  {| proto := p; addr := addr c; prefix := prefix c; unixdir := unixdir c |}.
Definition set_addr (a : string) (c : config) : config :=
  {| proto := proto c; addr := a; prefix := prefix c; unixdir := unixdir c |}.
Definition set_unixdir (d : string) (c : config) : config :=
  {| proto := proto c; addr := addr c; prefix := prefix c; unixdir := d |}.

(** [reflect.TypeOf(obj).Elem()]: a method call on the nil [Type] is a
    nil dereference. *)
Definition TypeOf_Elem (obj : iface) : result rtype :=
  match TypeOf obj with
  | None => Panic "runtime error: invalid memory address or nil pointer dereference"
  | Some t => Elem t
  end.

(** [r.Server.Register(obj)] on the embedded engine. *)
Definition Server_Register (obj : iface) : M unit :=
  fun r =>
    let (res, s) := rpc_Register (Server r) obj in
    (res, set_Server s r).

(** [func (r *rpcServer) register(obj interface{})]. *)
Definition register (obj : iface) : M unit :=
  element <- lift (TypeOf_Elem obj) ;;
  modify (fun r => set_objs (objs r ++ [Name element]) r) ;;;
  Server_Register obj.

(** [func Register(obj interface{})], on [defaultServer]. *)
Definition Register (obj : iface) : M unit :=
  r <- get ;;
  if running r then panic "Do not call Register after Run"
  else register obj.

(** The [pingo:] command-line flags, when given. *)
Record flags := mkFlags {
  flag_proto : option string;
  flag_unixdir : option string;
  flag_prefix : option string
}.

Definition flag_or (dflt : string) (o : option string) : string :=
  match o with
  | Some v => v
  | None => dflt
  end.

(** [func makeConfig() *config]. *)
Definition makeConfig (fl : flags) : config :=
  {| proto := flag_or "unix" (flag_proto fl);
     addr := "";
     prefix := flag_or "pingo" (flag_prefix fl);
     unixdir := flag_or "" (flag_unixdir fl) |}.

(** [func newRpcServer(secret string) *rpcServer]. *)
Definition newRpcServer (fl : flags) (secret : string) : result unit * rpcServer :=
  let r := {| Server := rpc_NewServer;
              secret := secret;
              objs := [];
              conf := makeConfig fl;
              running := false |} in
  register NewPingoRpc r.

(** ** Randomness and the operating system *)

Record world := mkWorld {
  drawn : nat;      (* characters taken from the random source so far *)
  listens : nat     (* calls of [net.Listen] made so far *)
}.

Definition world0 : world := {| drawn := 0; listens := 0 |}.

(** A value of the random source, folded into the printable range. *)
Definition printable_of (k : nat) : ascii := ascii_of_nat (32 + k mod 95).

(** Modelled from the spec: [randstr(n)] is defined outside server.go; it
    returns n unpredictable printable characters.  The random source is the
    stream [entropy]. *)
Definition randstr (entropy : nat -> nat) (n : nat) (w : world) : string * world :=
  (string_of_list_ascii
     (map (fun i => printable_of (entropy (drawn w + i))) (seq 0 n)),
   {| drawn := drawn w + n; listens := listens w |}).

(** ** Address allocators *)

(** [type tcp int] and [type unix string], behind the [connection]
    interface. *)
Inductive connection :=
| conn_tcp (t : Z)
| conn_unix (u : string).

(** [func (t *tcp) addr() string]: the address and the new cursor. *)
Definition tcp_addr (t : Z) : string * Z :=
  let t := if (t <? 1024)%Z then 1023%Z else t in
  let t := Go.wrap (t + 1) in
  (("127.0.0.1:" ++ Go.itoa t)%string, t).

(** [func (t *tcp) retries() int]. *)
Definition tcp_retries : Z := 500.

(** [func (u *unix) retries() int]. *)
Definition unix_retries : Z := 4.

(** [new(tcp)] and [new(unix)]: zero values. *)
Definition new_tcp : connection := conn_tcp 0.
Definition new_unix : connection := conn_unix "".

Definition retries (c : connection) : Z :=
  match c with
  | conn_tcp _ => tcp_retries
  | conn_unix _ => unix_retries
  end.

(** A bound listening socket: its network and address. *)
Definition listener : Type := string * string.

(** ** What the process does, as seen from outside *)

(** Modelled from the spec: [meta] and [output] are defined outside
    server.go.  A line of the handshake channel is recorded as [Output] with
    the prefix of the writer [h := meta(prefix)], its key and its value. *)
Inductive event :=
| Output (pfx key value : string)      (* a line on the handshake channel *)
| Listen (network address : string)    (* [net.Listen(network, address)] *)
| Accept                               (* [listener.Accept()] *)
| GoServe (c : conn).                  (* [go r.serveConn(conn)] *)

(** What one goroutine running [serveConn] does with its connection. *)
Inductive conn_event :=
| DoRead
| DoServeConn
| DoClose.

Inductive run_result :=
| Returned (err : error)     (* [run] returned the bind error *)
| Looping.                   (* [run] is in its accept loop *)

Inductive pc :=
| AtAuth       (* about to call [authConn] *)
| AtServe      (* authenticated, about to call [ServeConn] *)
| AtClose      (* about to call [conn.Close] *)
| Finished.

Record goroutine := mkGo {
  g_conn : conn;
  g_pc : pc
}.

(** [go r.serveConn(conn)]: a new goroutine at the start of [serveConn]. *)
Definition spawn (c : conn) : goroutine := {| g_conn := c; g_pc := AtAuth |}.

(** What the scheduler and the accept loop may do next. *)
Inductive action :=
| Spawn (c : conn)     (* the accept loop starts a goroutine on [c] *)
| Step (i : nat).      (* goroutine [i] runs to its next program point *)

Fixpoint update_nth {A} (i : nat) (x : A) (l : list A) : list A :=
  match l, i with
  | [], _ => []
  | _ :: l', O => x :: l'
  | y :: l', S i' => y :: update_nth i' x l'
  end.

(** The connections started by a sequence of actions, in order. *)
Fixpoint spawned (acts : list action) : list conn :=
  match acts with
  | [] => []
  | Spawn c :: rest => c :: spawned rest
  | Step _ :: rest => spawned rest
  end.

(** ** Sample environments, used to run the definitions *)

Module Sample.

(** Folded into the printable range this spells the lower-case alphabet. *)
Definition entropy (i : nat) : nat := 65 + i mod 26.

(** [net.Listen] fails on its first [k] calls. *)
Definition busy_first (k : nat) (i : nat) (network address : string)
  : option error :=
  if i <? k then Some "bind: address already in use" else None.

(** [net.Listen] fails everywhere but on [free]. *)
Definition only_free (free : string) (i : nat) (network address : string)
  : option error :=
  if (address =? free)%string then None
  else Some "bind: address already in use".

(** [path.Join] on non-empty elements that are clean already: the
    elements with a slash between them.  It is applied to such elements
    only. *)
Definition join (elems : list string) : string := String.concat "/" elems.

(** An engine that answers every connection it serves. *)
Definition engine (c : conn) : conn :=
  {| incoming := []; written := written c ++ Go.bytes_of_string "reply";
     closed := closed c |}.

Definition code : string := "err-connection-failed".

Definition secret64 : string :=
  "0123456789abcdef0123456789abcdef0123456789abcdef0123456789abcdef".

Definition server (p dir : string) : rpcServer :=
  snd (newRpcServer
         {| flag_proto := Some p; flag_unixdir := Some dir; flag_prefix := None |}
         secret64).

(** A peer that sends [s] in one piece and then hangs up. *)
Definition peer (s : string) : conn :=
  {| incoming := [(Go.bytes_of_string s, None)]; written := []; closed := false |}.

Definition Arith_t : rtype := Plain "Arith" "pingo.Arith" Struct.

(** A server with the default flags and a secret of one's choice. *)
Definition server_with (s : string) : rpcServer :=
  snd (newRpcServer
         {| flag_proto := None; flag_unixdir := None; flag_prefix := None |} s).

(** Sixty characters and four zero bytes. *)
Definition sixty : string :=
  "0123456789abcdef0123456789abcdef0123456789abcdef0123456789ab".
Definition zero_tailed : string :=
  string_of_list_ascii (list_ascii_of_string sixty ++ repeat Ascii.zero 4).

(** A peer that sends [s1] and [s2] in two reads. *)
Definition peer2 (s1 s2 : string) : conn :=
  {| incoming := [(Go.bytes_of_string s1, None); (Go.bytes_of_string s2, None)];
     written := []; closed := false |}.

Definition no_flags : flags :=
  {| flag_proto := None; flag_unixdir := None; flag_prefix := None |}.

End Sample.

(** Bounds of [int] as numerals, for [lia]. *)
Ltac int_bounds :=
  unfold Go.MinInt, Go.MaxInt in *;
  change (2 ^ 63)%Z with 9223372036854775808%Z in *.

(** ** The server proper *)

Section Pingo.

(** The host: the random source, the outcome of the k-th [net.Listen]
    call, [filepath.Separator], [path.Join], the engine's [ServeConn], and
    the error code constant declared outside server.go. *)
Variable entropy : nat -> nat.
Variable net_Listen : nat -> string -> string -> option error.
Variable Separator : ascii.
Variable path_Join : list string -> string.
Variable rpc_ServeConn : conn -> conn.
Variable errorCodeConnFailed : string.

(** [var defaultServer = newRpcServer(randstr(64))]. *)
Definition defaultServer (fl : flags) : rpcServer * world :=
  let (s, w) := randstr entropy 64 world0 in
  (snd (newRpcServer fl s), w).

(** [func (u *unix) addr() string]. *)
Definition unix_addr (u : string) (w : world) : string * world :=
  let (name, w) := randstr entropy 8 w in
  let name :=
    if negb (u =? "")%string
    then Go.FromSlash Separator (path_Join [u; name])
    else name in
  (name, w).

(** [conn.addr()] through the interface. *)
Definition conn_addr (c : connection) (w : world)
  : string * connection * world :=
  match c with
  | conn_tcp t => let (a, t') := tcp_addr t in (a, conn_tcp t', w)
  | conn_unix u => let (a, w') := unix_addr u w in (a, conn_unix u, w')
  end.

(** [net.Listen(network, address)]: nil error on success. *)
Definition Listen_call (network address : string) (w : world)
  : option error * world :=
  (net_Listen (listens w) network address,
   {| drawn := drawn w; listens := S (listens w) |}).

(** The variables the bind loop of [run] assigns. *)
Record binding := mkBinding {
  b_conn : connection;
  b_world : world;
  b_addr : string;                (* r.conf.addr *)
  b_listener : option listener;
  b_err : option error
}.

(** [for i := 0; i < conn.retries(); i++ { ... }], with [todo] iterations
    still allowed. *)
Fixpoint bind_loop (todo : nat) (network : string) (b : binding)
  : binding * list event :=
  match todo with
  | O => (b, [])
  | S todo' =>
      let '(a, cn, w) := conn_addr (b_conn b) (b_world b) in
      let (err, w) := Listen_call network a w in
      let b' := {| b_conn := cn; b_world := w; b_addr := a;
                   b_listener := match err with
                                 | None => Some (network, a)
                                 | Some _ => None
                                 end;
                   b_err := err |} in
      match err with
      | None => (b', [Listen network a])
      | Some _ =>
          let (b'', evs) := bind_loop todo' network b' in
          (b'', Listen network a :: evs)
      end
  end.

(** The accept loop of [run], for the accept results seen so far. *)
Fixpoint accept_loop (h : string) (accepts : list (conn + error))
  : list event :=
  match accepts with
  | [] => []
  | inl c :: rest => Accept :: GoServe c :: accept_loop h rest
  | inr e :: rest =>
      Accept :: Output h "fatal" ("err-http-serve: " ++ e)%string
             :: accept_loop h rest
  end.

Definition fatal_bind (cn : connection) (network : string) : string :=
  (errorCodeConnFailed ++ ": Could not connect in " ++ Go.itoa (retries cn)
     ++ " attemps, using " ++ network ++ " protocol")%string.

Definition ready_line (c : config) : string :=
  ("proto=" ++ proto c ++ " addr=" ++ addr c)%string.

(** [func (r *rpcServer) run() error].  [dflt] is the global
    [defaultServer], of which [run] reads the secret.  The accept loop never
    returns; [accepts] is what [Accept] has answered so far. *)
Definition run (dflt r : rpcServer) (w : world) (accepts : list (conn + error))
  : run_result * rpcServer * world * list event :=
  let r := set_running true r in
  let h := prefix (conf r) in
  let objects := Output h "objects" (Go.Join (objs r) ", ") in
  let (r, cn) :=
    if (proto (conf r) =? "tcp")%string then (r, new_tcp)
    else (set_conf (set_proto "unix" (conf r)) r, new_unix) in
  let (b, binds) :=
    bind_loop (Z.to_nat (retries cn)) (proto (conf r))
      {| b_conn := cn; b_world := w; b_addr := addr (conf r);
         b_listener := None; b_err := None |} in
  let r := set_conf (set_addr (b_addr b) (conf r)) r in
  match b_err b with
  | Some err =>
      (Returned err, r, b_world b,
       objects :: binds
         ++ [Output h "fatal" (fatal_bind (b_conn b) (proto (conf r)))])
  | None =>
      (Looping, r, b_world b,
       objects :: binds
         ++ [Output h "auth-token" (secret dflt);
             Output h "ready" (ready_line (conf r))]
         ++ accept_loop h accepts)
  end.

(** [func Run() error]: [run] on the default server, which is then both
    the receiver and the global. *)
Definition Run (r : rpcServer) (w : world) (accepts : list (conn + error))
  : run_result * rpcServer * world * list event :=
  run r r w accepts.

(** [func (r *rpcServer) serveConn(conn io.ReadWriteCloser)]. *)
Definition serveConn (r : rpcServer) (c : conn) : conn * list conn_event :=
  let (ok, c) := authConn r c in
  let (c, served) :=
    if ok then (rpc_ServeConn c, [DoServeConn]) else (c, []) in
  (Close c, DoRead :: served ++ [DoClose]).

(** One goroutine of [serveConn], a program point at a time. *)
Definition go_step (r : rpcServer) (g : goroutine)
  : goroutine * list conn_event :=
  match g_pc g with
  | AtAuth =>
      let (ok, c) := authConn r (g_conn g) in
      ({| g_conn := c; g_pc := if ok then AtServe else AtClose |}, [DoRead])
  | AtServe =>
      ({| g_conn := rpc_ServeConn (g_conn g); g_pc := AtClose |},
       [DoServeConn])
  | AtClose => ({| g_conn := Close (g_conn g); g_pc := Finished |}, [DoClose])
  | Finished => (g, [])
  end.

(** The goroutines started so far under an arbitrary interleaving; events
    carry the index of the goroutine. *)
Definition act (r : rpcServer) (a : action) (pool : list goroutine)
  : list goroutine * list (nat * conn_event) :=
  match a with
  | Spawn c => (pool ++ [spawn c], [])
  | Step i =>
      match nth_error pool i with
      | None => (pool, [])
      | Some g =>
          let (g', evs) := go_step r g in
          (update_nth i g' pool, map (pair i) evs)
      end
  end.

Fixpoint exec (r : rpcServer) (acts : list action) (pool : list goroutine)
  : list goroutine * list (nat * conn_event) :=
  match acts with
  | [] => (pool, [])
  | a :: rest =>
      let (pool', evs) := act r a pool in
      let (pool'', evs') := exec r rest pool' in
      (pool'', evs ++ evs')
  end.

(** A client of the package: calls of the exported functions, one after
    the other.  A call that panics leaves the state it reached; the next
    call, if the client recovered, starts from there. *)
Inductive call :=
| CallRegister (obj : iface)
| CallRun (w : world) (accepts : list (conn + error)).

Definition server_of (x : run_result * rpcServer * world * list event)
  : rpcServer :=
  snd (fst (fst x)).
Definition trace_of (x : run_result * rpcServer * world * list event)
  : list event :=
  snd x.
Definition result_of (x : run_result * rpcServer * world * list event)
  : run_result :=
  fst (fst (fst x)).

Definition do_call (k : call) (r : rpcServer) : rpcServer :=
  match k with
  | CallRegister obj => snd (Register obj r)
  | CallRun w accepts => server_of (Run r w accepts)
  end.

Definition history (calls : list call) (r : rpcServer) : rpcServer :=
  fold_left (fun r k => do_call k r) calls r.

(** [Register] called on each object in turn, stopping at a panic. *)
Fixpoint Register_all (os : list iface) : M unit :=
  match os with
  | [] => ret tt
  | o :: rest => Register o ;;; Register_all rest
  end.

(** Kinds with an element type whose nil value is not a pointer. *)
Definition nil_elem_kind (k : Kind) : bool :=
  match k with
  | Chan | Map | Slice => true
  | _ => false
  end.

(** A value [register] can name and the engine can look at: of a
    well-formed type whose kind has an element type, and neither the nil
    interface nor a nil pointer. *)
Definition registrable (obj : iface) : bool :=
  match obj with
  | Nil => false
  | Val t => wf_type t && has_elem (kindOf t)
  | NilOf t => wf_type t && nil_elem_kind (kindOf t)
  end.

(** The name [register] records for [obj]. *)
Definition elem_name (obj : iface) : string :=
  match TypeOf_Elem obj with
  | Ok e => Name e
  | Panic _ => ""
  end.

(** The cursor of a TCP allocator after [n] calls of [addr]. *)
Fixpoint tcp_cursor (n : nat) (t : Z) : Z :=
  match n with
  | O => t
  | S n' => tcp_cursor n' (snd (tcp_addr t))
  end.

Definition with_listens (k : nat) (w : world) : world :=
  {| drawn := drawn w; listens := k |}.

(** The first [n] addresses an allocator hands out. *)
Fixpoint candidates (n : nat) (cn : connection) (w : world) : list string :=
  match n with
  | O => []
  | S n' =>
      let '(a, cn', w') := conn_addr cn w in
      a :: candidates n' cn' w'
  end.

(** The position of the first candidate on which [net.Listen] succeeds,
    when the first call is the [i]-th of the process. *)
Fixpoint first_free (i : nat) (network : string) (cands : list string)
  : option nat :=
  match cands with
  | [] => None
  | a :: rest =>
      match net_Listen i network a with
      | None => Some 0
      | Some _ => option_map S (first_free (S i) network rest)
      end
  end.

(** The allocator and network [run] selects. *)
Definition chosen (c : config) : connection * string :=
  if (proto c =? "tcp")%string then (new_tcp, "tcp"%string)
  else (new_unix, "unix"%string).

(** Handshake lines with a given key. *)
Definition has_key (key : string) (e : event) : bool :=
  match e with
  | Output _ k _ => (k =? key)%string
  | _ => false
  end.

Definition count_key (key : string) (tr : list event) : nat :=
  List.length (filter (has_key key) tr).

Definition is_Listen (e : event) : bool :=
  match e with
  | Listen _ _ => true
  | _ => false
  end.

(** The fatal line on bind exhaustion in the words of the specification,
    to compare with [fatal_bind]. *)
Definition spec_fatal_line (n : Z) (network : string) : string :=
  (errorCodeConnFailed ++ ": Could not connect in " ++ Go.itoa n
     ++ " attempts, using " ++ network ++ " protocol")%string.

(** [k] steps of one goroutine, and the events of goroutine [i] in a
    trace. *)
Fixpoint run_steps (r : rpcServer) (k : nat) (g : goroutine)
  : goroutine * list conn_event :=
  match k with
  | O => (g, [])
  | S k' =>
      let (g', evs) := go_step r g in
      let (g'', evs') := run_steps r k' g' in
      (g'', evs ++ evs')
  end.

Definition events_of (i : nat) (tr : list (nat * conn_event))
  : list conn_event :=
  map snd (filter (fun p => fst p =? i) tr).

(** All the bytes a script holds, in order. *)
Definition stream (script : list chunk) : list byte :=
  concat (map fst script).

(** No [Read] of the script reports an error. *)
Definition error_free (script : list chunk) : bool :=
  forallb (fun ch => match snd ch with
                     | None => true
                     | Some _ => false
                     end) script.

(** What a goroutine of [serveConn] does with [c] from start to end. *)
Definition serve_events (r : rpcServer) (c : conn) : list conn_event :=
  if fst (authConn r c) then [DoRead; DoServeConn; DoClose]
  else [DoRead; DoClose].

(** The connections [Accept] has returned and the errors it has reported. *)
Fixpoint accepted (accepts : list (conn + error)) : list conn :=
  match accepts with
  | [] => []
  | inl c :: rest => c :: accepted rest
  | inr _ :: rest => accepted rest
  end.

Fixpoint accept_errors (accepts : list (conn + error)) : list error :=
  match accepts with
  | [] => []
  | inl _ :: rest => accept_errors rest
  | inr e :: rest => e :: accept_errors rest
  end.

(** The connections a trace hands to goroutines, its fatal lines, and the
    number of its calls of [Accept]. *)
Fixpoint served (tr : list event) : list conn :=
  match tr with
  | [] => []
  | GoServe c :: rest => c :: served rest
  | _ :: rest => served rest
  end.

Fixpoint fatal_values (tr : list event) : list string :=
  match tr with
  | [] => []
  | Output _ k v :: rest =>
      if (k =? "fatal")%string then v :: fatal_values rest
      else fatal_values rest
  | _ :: rest => fatal_values rest
  end.

Definition is_Accept (e : event) : bool :=
  match e with
  | Accept => true
  | _ => false
  end.

(** The addresses a trace has tried to bind, in order. *)
Fixpoint listened (tr : list event) : list string :=
  match tr with
  | [] => []
  | Listen _ a :: rest => a :: listened rest
  | _ :: rest => listened rest
  end.

(** What every call of the package keeps: the names are those of the
    objects handed to the engine, all of a kind with an element type, the
    control object among them first, and the secret is the one the server
    was built with. *)
Definition registry_ok (s : string) (r : rpcServer) : Prop :=
  objs r = map elem_name (Server r)
  /\ Forall (fun o => dereferenceable o = true) (Server r)
  /\ hd_error (Server r) = Some NewPingoRpc
  /\ secret r = s.

(** ** Authentication: what [authConn] accepts *)

Lemma readLoop_length (script : list chunk) (room : nat) :
  List.length (fst (readLoop script room)) <= room.
Proof.
  revert room.
  induction script as [|[d e] rest IH]; intros [|n];
    cbn [readLoop fst List.length]; try lia.
  destruct (List.length d <=? S n) eqn:E.
  - apply Nat.leb_le in E. destruct e as [err|].
    + cbn [fst]; lia.
    + specialize (IH (S n - List.length d)).
      destruct (readLoop rest (S n - List.length d)) as [d' rest'].
      cbn [fst] in *. rewrite length_app. lia.
  - cbn [fst]. rewrite length_firstn. lia.
Qed.

Lemma delivered_length (c : conn) (n : nat) :
  List.length (delivered c n) <= n.
Proof. apply readLoop_length. Qed.

Lemma skipn_repeat {A} (a : A) (k n : nat) :
  skipn k (repeat a n) = repeat a (n - k).
Proof.
  revert n; induction k as [|k IH]; intros [|n]; simpl; auto.
Qed.

Lemma bytes_of_string_length (s : string) :
  List.length (Go.bytes_of_string s) = String.length s.
Proof. induction s; simpl; auto. Qed.

Lemma string_of_bytes_eq (buf : list byte) (s : string) :
  Go.string_of_bytes buf = s <-> buf = Go.bytes_of_string s.
Proof.
  unfold Go.string_of_bytes, Go.bytes_of_string. split; intros H.
  - rewrite <- H. symmetry. apply list_ascii_of_string_of_list_ascii.
  - rewrite H. apply string_of_list_ascii_of_string.
Qed.

(** The buffer [authConn] compares: the bytes delivered, then zeros. *)
Lemma ReadFull_buffer (c : conn) (n : nat) :
  fst (ReadFull c (Go.make n)) =
  delivered c n ++ repeat Ascii.zero (n - List.length (delivered c n)).
Proof.
  unfold ReadFull, delivered, Go.make. rewrite repeat_length.
  destruct (readLoop (incoming c) n) as [d script']. simpl.
  now rewrite skipn_repeat.
Qed.

Lemma authConn_true (r : rpcServer) (c : conn) :
  fst (authConn r c) = true <->
  fst (ReadFull c (Go.make 64)) = Go.bytes_of_string (secret r).
Proof.
  unfold authConn. destruct (ReadFull c (Go.make 64)) as [buf c'].
  rewrite <- string_of_bytes_eq. simpl.
  destruct (String.eqb_spec (Go.string_of_bytes buf) (secret r)); simpl;
    split; intros; congruence.
Qed.

Lemma printable_nonzero (s : list byte) (i : nat) :
  Forall (fun c => printable c = true) s ->
  i < List.length s -> nth i s Ascii.zero <> Ascii.zero.
Proof.
  intros Hall Hi Hz.
  rewrite Forall_forall in Hall.
  specialize (Hall (nth i s Ascii.zero) (nth_In _ _ Hi)).
  rewrite Hz in Hall. discriminate Hall.
Qed.

Lemma buffer_is_secret (s : string) (d : list byte) :
  secret_ok s -> List.length d <= 64 ->
  (d ++ repeat Ascii.zero (64 - List.length d) = Go.bytes_of_string s
   <-> d = Go.bytes_of_string s).
Proof.
  intros [Hlen Hpr] Hd. split; intros H.
  - destruct (Nat.eq_dec (List.length d) 64) as [E|E].
    + rewrite E in H. simpl in H. now rewrite app_nil_r in H.
    + exfalso.
      apply (printable_nonzero (Go.bytes_of_string s) (List.length d) Hpr).
      * rewrite bytes_of_string_length. lia.
      * rewrite <- H. rewrite app_nth2 by lia.
        rewrite Nat.sub_diag. destruct (64 - List.length d) eqn:E'; [lia|reflexivity].
  - subst d. rewrite bytes_of_string_length, Hlen. simpl. apply app_nil_r.
Qed.

(** C1: with a secret of 64 printable characters, [authConn] answers true
    exactly when the bytes the read delivered are the secret; a read that
    delivers fewer than 64 bytes, or a buffer that differs from the secret
    at some position, makes it answer false. *)
Theorem authConn_iff_secret (r : rpcServer) (c : conn) :
  secret_ok (secret r) ->
  (fst (authConn r c) = true <->
   delivered c 64 = Go.bytes_of_string (secret r))
  /\ (List.length (delivered c 64) < 64 -> fst (authConn r c) = false)
  /\ (forall i, i < 64 ->
        nth i (fst (ReadFull c (Go.make 64))) Ascii.zero
          <> nth i (Go.bytes_of_string (secret r)) Ascii.zero ->
        fst (authConn r c) = false).
Proof.
  intros Hs.
  assert (Hiff : fst (authConn r c) = true <->
                 delivered c 64 = Go.bytes_of_string (secret r)).
  { rewrite authConn_true, ReadFull_buffer.
    apply buffer_is_secret; [exact Hs | apply delivered_length]. }
  split; [exact Hiff|]. split.
  - intros Hshort. apply not_true_is_false. intros Ht.
    apply Hiff in Ht. rewrite Ht, bytes_of_string_length in Hshort.
    destruct Hs as [Hlen _]. lia.
  - intros i _ Hdiff. apply not_true_is_false. intros Ht.
    apply authConn_true in Ht. rewrite Ht in Hdiff. now apply Hdiff.
Qed.

(** ** Registration *)

Lemma nil_elem_kind_has_elem (k : Kind) :
  nil_elem_kind k = true -> has_elem k = true.
Proof. destruct k; simpl; congruence. Qed.

Lemma registrable_has_elem (obj : iface) :
  registrable obj = true ->
  exists t, TypeOf obj = Some t /\ wf_type t = true
            /\ has_elem (kindOf t) = true.
Proof.
  destruct obj as [|t|t]; simpl; try discriminate; intros H;
    apply andb_prop in H as [Hw Hk]; exists t; repeat split; trivial.
  now apply nil_elem_kind_has_elem.
Qed.

Lemma TypeOf_Elem_registrable (obj : iface) :
  registrable obj = true -> exists e, TypeOf_Elem obj = Ok e.
Proof.
  intros H. destruct (registrable_has_elem obj H) as (t & Ht & Hw & Hk).
  unfold TypeOf_Elem. rewrite Ht.
  destruct t as [n s k|n s k e]; simpl in *.
  - rewrite Hk in Hw. discriminate.
  - rewrite Hk. now exists e.
Qed.

(** The engine takes whatever is registrable: it is neither the nil
    interface nor a nil pointer. *)
Lemma rpc_Register_registrable (obj : iface) :
  registrable obj = true -> rpc_Register_result obj = Ok tt.
Proof.
  unfold rpc_Register_result.
  destruct obj as [|t|t]; simpl; try discriminate; trivial.
  intros H. apply andb_prop in H as [_ H].
  destruct (kindOf t); simpl in *; congruence.
Qed.

Lemma TypeOf_Elem_panics (obj : iface) :
  dereferenceable obj = false -> exists msg, TypeOf_Elem obj = Panic msg.
Proof.
  destruct obj as [|[n s k|n s k e]|[n s k|n s k e]];
    unfold TypeOf_Elem; simpl; intros H; try rewrite H; eauto.
Qed.

Lemma TypeOf_Elem_ok_inv (obj : iface) (e : rtype) :
  TypeOf_Elem obj = Ok e -> dereferenceable obj = true.
Proof.
  destruct (dereferenceable obj) eqn:E; [reflexivity|].
  destruct (TypeOf_Elem_panics obj E) as [msg ->]. discriminate.
Qed.

(** [register] either panics in the reflection step, leaving the server
    untouched, or appends one name and forwards the object; the outcome is
    then the engine's, which panics on a nil pointer. *)
Lemma register_cases (obj : iface) (r : rpcServer) :
  match TypeOf_Elem obj with
  | Ok e =>
      register obj r =
      (rpc_Register_result obj,
       set_Server (Server r ++ [obj]) (set_objs (objs r ++ [Name e]) r))
  | Panic msg => register obj r = (Panic msg, r)
  end.
Proof.
  unfold register, bind, lift, modify, Server_Register, rpc_Register.
  destruct (TypeOf_Elem obj); reflexivity.
Qed.

Lemma Register_running (obj : iface) (r : rpcServer) :
  running r = true ->
  Register obj r = (Panic "Do not call Register after Run", r).
Proof.
  intros H. unfold Register, bind, get, panic. now rewrite H.
Qed.

Lemma Register_not_running (obj : iface) (r : rpcServer) :
  running r = false -> Register obj r = register obj r.
Proof.
  intros H. unfold Register, bind, get. now rewrite H.
Qed.

Lemma Register_registrable (obj : iface) (r : rpcServer) :
  running r = false -> registrable obj = true ->
  Register obj r =
  (Ok tt, set_Server (Server r ++ [obj])
            (set_objs (objs r ++ [elem_name obj]) r)).
Proof.
  intros Hr Ho. rewrite (Register_not_running _ _ Hr).
  pose proof (register_cases obj r) as H. unfold elem_name.
  destruct (TypeOf_Elem_registrable obj Ho) as [e He].
  rewrite He in *. now rewrite (rpc_Register_registrable obj Ho) in H.
Qed.

(** A nil pointer passes the reflection step, so its name is appended and
    the object handed on; the engine then panics on it. *)
Lemma Register_nil_pointer (t : rtype) (r : rpcServer) :
  running r = false ->
  Register (NilOf (ptr_to t)) r =
  (Panic "reflect: call of reflect.Value.Type on zero Value",
   set_Server (Server r ++ [NilOf (ptr_to t)])
     (set_objs (objs r ++ [Name t]) r)).
Proof.
  intros Hr. rewrite (Register_not_running _ _ Hr).
  exact (register_cases (NilOf (ptr_to t)) r).
Qed.

Lemma Register_all_registrable (os : list iface) :
  forall r,
    running r = false ->
    Forall (fun o => registrable o = true) os ->
    Register_all os r =
    (Ok tt, set_Server (Server r ++ os)
              (set_objs (objs r ++ map elem_name os) r)).
Proof.
  induction os as [|o os IH]; intros r Hr Hos.
  - simpl. unfold ret. rewrite !app_nil_r. now destruct r.
  - inversion Hos as [|? ? Ho Hos']; subst.
    cbn [Register_all]. unfold bind at 1.
    rewrite (Register_registrable _ _ Hr Ho).
    rewrite IH by (auto; reflexivity). simpl.
    now rewrite <- !app_assoc.
Qed.

Lemma run_sets_running (dflt r : rpcServer) (w : world)
      (accepts : list (conn + error)) :
  running (server_of (run dflt r w accepts)) = true.
Proof.
  unfold run, server_of.
  destruct (proto (conf (set_running true r)) =? "tcp")%string;
    match goal with
    | |- context [bind_loop ?n ?p ?b] => destruct (bind_loop n p b) as [b' evs]
    end;
    destruct (b_err b'); reflexivity.
Qed.

Lemma run_keeps_objs (dflt r : rpcServer) (w : world)
      (accepts : list (conn + error)) :
  objs (server_of (run dflt r w accepts)) = objs r.
Proof.
  unfold run, server_of.
  destruct (proto (conf (set_running true r)) =? "tcp")%string;
    match goal with
    | |- context [bind_loop ?n ?p ?b] => destruct (bind_loop n p b) as [b' evs]
    end;
    destruct (b_err b'); reflexivity.
Qed.

Lemma run_first_event (dflt r : rpcServer) (w : world)
      (accepts : list (conn + error)) :
  exists rest,
    trace_of (run dflt r w accepts) =
    Output (prefix (conf r)) "objects" (Go.Join (objs r) ", ") :: rest.
Proof.
  unfold run, trace_of.
  destruct (proto (conf (set_running true r)) =? "tcp")%string;
    match goal with
    | |- context [bind_loop ?n ?p ?b] => destruct (bind_loop n p b) as [b' evs]
    end;
    destruct (b_err b'); simpl; eauto.
Qed.

Lemma Register_appends (obj : iface) (r : rpcServer) :
  exists l, objs (snd (Register obj r)) = objs r ++ l.
Proof.
  destruct (running r) eqn:Hr.
  - rewrite (Register_running _ _ Hr). exists []. simpl. now rewrite app_nil_r.
  - rewrite (Register_not_running _ _ Hr).
    pose proof (register_cases obj r) as H.
    destruct (TypeOf_Elem obj) as [e|msg]; rewrite H; simpl.
    + now exists [Name e].
    + exists []. now rewrite app_nil_r.
Qed.

Lemma history_appends (calls : list call) :
  forall r, exists l, objs (history calls r) = objs r ++ l.
Proof.
  induction calls as [|k calls IH]; intros r.
  - exists []. simpl. now rewrite app_nil_r.
  - cbn [history fold_left]. fold (history calls (do_call k r)).
    destruct (IH (do_call k r)) as [l Hl]. rewrite Hl.
    destruct k as [obj|w accepts]; cbn [do_call].
    + destruct (Register_appends obj r) as [l0 ->].
      exists (l0 ++ l). now rewrite app_assoc.
    + unfold Run. rewrite run_keeps_objs. now exists l.
Qed.

Lemma history_keeps_running (calls : list call) :
  forall r, running r = true -> running (history calls r) = true.
Proof.
  induction calls as [|k calls IH]; intros r Hr; [exact Hr|].
  cbn [history fold_left]. fold (history calls (do_call k r)).
  apply IH. destruct k as [obj|w accepts]; cbn [do_call].
  - now rewrite (Register_running _ _ Hr).
  - apply run_sets_running.
Qed.

Lemma prefix_append (s t : string) : String.prefix s (s ++ t)%string = true.
Proof.
  induction s as [|c s IH]; simpl.
  - now destruct t.
  - destruct (ascii_dec c c); [exact IH | congruence].
Qed.

Lemma Join_head (x : string) (l : list string) (sep : string) :
  exists t, Go.Join (x :: l) sep = (x ++ t)%string.
Proof.
  unfold Go.Join. destruct l as [|y l]; simpl.
  - exists ""%string. clear. induction x; simpl; congruence.
  - eauto.
Qed.

(** C3 (amended): before [Run], any number of calls of [Register] on
    values that [register] can name and the engine can look at (of a kind
    with an element type, and neither the nil interface nor a nil pointer)
    succeed, each appending one name; a nil pointer instead panics inside
    the engine, after its name was appended.  Once [Run] has been entered
    [running] is true and stays true, and every call of [Register] then
    panics with the message of the source and leaves the server as it
    was. *)
Theorem Register_lifecycle (os : list iface) (r : rpcServer) (w : world)
        (accepts : list (conn + error)) (obj : iface) :
  running r = false ->
  Forall (fun o => registrable o = true) os ->
  let r1 := snd (Register_all os r) in
  let r2 := server_of (Run r1 w accepts) in
  fst (Register_all os r) = Ok tt
  /\ objs r1 = objs r ++ map elem_name os
  /\ running r1 = false
  /\ running r2 = true
  /\ Register obj r2 = (Panic "Do not call Register after Run", r2)
  /\ (forall calls r',
        running r' = true ->
        running (history calls r') = true
        /\ Register obj (history calls r') =
           (Panic "Do not call Register after Run", history calls r'))
  /\ (forall t,
        Register (NilOf (ptr_to t)) r =
        (Panic "reflect: call of reflect.Value.Type on zero Value",
         set_Server (Server r ++ [NilOf (ptr_to t)])
           (set_objs (objs r ++ [Name t]) r))).
Proof.
  intros Hr Hos r1 r2. subst r1 r2.
  rewrite (Register_all_registrable os r Hr Hos). cbn [fst snd].
  repeat split; try reflexivity; try exact Hr.
  - apply run_sets_running.
  - apply Register_running, run_sets_running.
  - now apply history_keeps_running.
  - now apply Register_running, history_keeps_running.
  - intros t. now apply Register_nil_pointer.
Qed.

(** C9: the server is built with PingoRpc registered, so after any calls
    of the exported functions the name list starts with PingoRpc (a
    [Register] only appends), and the objects line that [Run] writes first
    starts with it. *)
Theorem PingoRpc_listed_first (fl : flags) (s : string) (calls : list call)
        (w : world) (accepts : list (conn + error)) :
  let r0 := snd (newRpcServer fl s) in
  let r := history calls r0 in
  fst (newRpcServer fl s) = Ok tt
  /\ objs r0 = ["PingoRpc"%string]
  /\ objs (fst (defaultServer fl)) = ["PingoRpc"%string]
  /\ (forall obj r', exists l, objs (snd (Register obj r')) = objs r' ++ l)
  /\ exists tail rest,
       objs r = "PingoRpc"%string :: tail
       /\ trace_of (Run r w accepts) =
          Output (prefix (conf r)) "objects"
                 (Go.Join ("PingoRpc"%string :: tail) ", ") :: rest
       /\ String.prefix "PingoRpc"
            (Go.Join ("PingoRpc"%string :: tail) ", ") = true.
Proof.
  intros r0 r. subst r r0.
  split; [reflexivity|]. split; [reflexivity|]. split; [reflexivity|].
  split; [apply Register_appends|].
  destruct (history_appends calls (snd (newRpcServer fl s))) as [tail Ht].
  change (objs (snd (newRpcServer fl s))) with ["PingoRpc"%string] in Ht.
  cbn [app] in Ht.
  destruct (run_first_event (history calls (snd (newRpcServer fl s)))
              (history calls (snd (newRpcServer fl s))) w accepts)
    as [rest Hrest].
  exists tail, rest. split; [exact Ht|]. split.
  - unfold Run. rewrite Hrest, Ht. reflexivity.
  - destruct (Join_head "PingoRpc" tail ", ") as [t ->]. apply prefix_append.
Qed.

(** C10: before [Run], [Register] on the nil interface or on a value whose
    kind has no element type (anything but a pointer, array, channel, map
    or slice) panics in the reflection step and registers nothing; whatever
    [Register] accepts is of a kind with an element type. *)
Theorem Register_needs_dereferenceable (obj : iface) (r : rpcServer) :
  running r = false ->
  dereferenceable obj = false ->
  (exists msg,
      TypeOf_Elem obj = Panic msg /\ Register obj r = (Panic msg, r))
  /\ (forall obj' r0 r', Register obj' r0 = (Ok tt, r') ->
                         dereferenceable obj' = true).
Proof.
  intros Hr Hd. split.
  - destruct (TypeOf_Elem_panics obj Hd) as [msg Hm]. exists msg.
    split; [exact Hm|]. rewrite (Register_not_running _ _ Hr).
    pose proof (register_cases obj r) as H. now rewrite Hm in H.
  - intros obj' r0 r' H. destruct (running r0) eqn:Hr0.
    + rewrite (Register_running _ _ Hr0) in H. discriminate.
    + rewrite (Register_not_running _ _ Hr0) in H.
      pose proof (register_cases obj' r0) as Hc.
      destruct (TypeOf_Elem obj') as [e|msg] eqn:He.
      * now apply TypeOf_Elem_ok_inv with e.
      * rewrite Hc in H. discriminate.
Qed.

(** ** The TCP allocator *)

Lemma wrap_small (z : Z) :
  (Go.MinInt <= z <= Go.MaxInt)%Z -> Go.wrap z = z.
Proof.
  unfold Go.wrap, Go.MinInt, Go.MaxInt.
  change (2 ^ 63)%Z with 9223372036854775808%Z.
  change (2 ^ 64)%Z with 18446744073709551616%Z.
  intros H. rewrite Z.mod_small; lia.
Qed.

Lemma tcp_addr_unset : tcp_addr 0 = ("127.0.0.1:1024"%string, 1024%Z).
Proof. reflexivity. Qed.

Lemma tcp_addr_next (t : Z) :
  (1023 <= t < Go.MaxInt)%Z ->
  tcp_addr t = (("127.0.0.1:" ++ Go.itoa (t + 1))%string, (t + 1)%Z).
Proof.
  intros H. unfold tcp_addr.
  assert (E : (if (t <? 1024)%Z then 1023%Z else t) = t).
  { destruct (Z.ltb_spec t 1024); lia. }
  rewrite E. rewrite wrap_small; [reflexivity|].
  int_bounds. lia.
Qed.

Lemma tcp_cursor_from (n : nat) :
  forall t, (1023 <= t)%Z -> (t + Z.of_nat n <= Go.MaxInt)%Z ->
            tcp_cursor n t = (t + Z.of_nat n)%Z.
Proof.
  induction n as [|n IH]; intros t Ht Hn.
  - cbn [tcp_cursor]. lia.
  - cbn [tcp_cursor]. rewrite tcp_addr_next by (int_bounds; lia). cbn [snd].
    rewrite IH by lia. lia.
Qed.

Lemma tcp_cursor_unset (n : nat) :
  (1024 + Z.of_nat n <= Go.MaxInt)%Z ->
  tcp_cursor (S n) 0 = (1024 + Z.of_nat n)%Z.
Proof.
  intros H. cbn [tcp_cursor]. rewrite tcp_addr_unset. cbn [snd].
  apply tcp_cursor_from; lia.
Qed.

(** The call after [n] earlier ones, from an unset cursor. *)
Lemma tcp_addr_nth (n : nat) :
  (1024 + Z.of_nat n <= Go.MaxInt)%Z ->
  tcp_addr (tcp_cursor n 0) =
  (("127.0.0.1:" ++ Go.itoa (1024 + Z.of_nat n))%string,
   (1024 + Z.of_nat n)%Z).
Proof.
  intros H. destruct n as [|n].
  - exact tcp_addr_unset.
  - rewrite tcp_cursor_unset by (int_bounds; lia).
    rewrite tcp_addr_next by (int_bounds; lia).
    replace (1024 + Z.of_nat n + 1)%Z with (1024 + Z.of_nat (S n))%Z by lia.
    reflexivity.
Qed.

(** C5 (amended): from an unset cursor the first address is
    127.0.0.1:1024, and every one of the first 2^63 - 1024 calls returns
    127.0.0.1:<port> with a port one above that of the call before it and
    never below 1024.  (The 64-bit cursor then wraps around.) *)
Theorem tcp_addr_sequence (n : nat) :
  (Z.of_nat n < 2 ^ 63 - 1024)%Z ->
  let t := tcp_cursor n 0 in
  tcp_addr 0 = ("127.0.0.1:1024"%string, 1024%Z)
  /\ tcp_addr t = (("127.0.0.1:" ++ Go.itoa (snd (tcp_addr t)))%string,
                   (1024 + Z.of_nat n)%Z)
  /\ (1024 <= snd (tcp_addr t))%Z
  /\ (0 < n ->
      snd (tcp_addr t) = (snd (tcp_addr (tcp_cursor (n - 1) 0)) + 1)%Z).
Proof.
  intros Hn t. subst t.
  assert (Hb : (1024 + Z.of_nat n <= Go.MaxInt)%Z).
  { int_bounds. lia. }
  rewrite (tcp_addr_nth n Hb). cbn [snd].
  split; [reflexivity|]. split; [reflexivity|]. split; [lia|].
  intros Hpos. rewrite tcp_addr_nth by (int_bounds; lia). cbn [snd]. lia.
Qed.

(** ** The bind loop *)

Lemma randstr_listens (n : nat) (w : world) (k : nat) :
  randstr entropy n (with_listens k w) =
  (fst (randstr entropy n w), with_listens k (snd (randstr entropy n w))).
Proof. reflexivity. Qed.

Lemma conn_addr_with_listens (cn : connection) (w : world) (k : nat) :
  conn_addr cn (with_listens k w) =
  let '(a, cn', w') := conn_addr cn w in (a, cn', with_listens k w').
Proof.
  destruct cn as [t|u]; cbn [conn_addr].
  - destruct (tcp_addr t) as [a t']. reflexivity.
  - unfold unix_addr. rewrite randstr_listens.
    destruct (randstr entropy 8 w) as [name w']. reflexivity.
Qed.

Lemma conn_addr_listens (cn : connection) (w : world) :
  listens (snd (conn_addr cn w)) = listens w.
Proof.
  destruct cn as [t|u]; cbn [conn_addr].
  - destruct (tcp_addr t) as [a t']. reflexivity.
  - unfold unix_addr. destruct w as [d l]. reflexivity.
Qed.

Lemma conn_addr_retries (cn : connection) (w : world) :
  retries (snd (fst (conn_addr cn w))) = retries cn.
Proof.
  destruct cn as [t|u]; cbn [conn_addr].
  - destruct (tcp_addr t) as [a t']. reflexivity.
  - destruct (unix_addr u w) as [a w']. reflexivity.
Qed.

Lemma candidates_with_listens (n : nat) :
  forall cn w k, candidates n cn (with_listens k w) = candidates n cn w.
Proof.
  induction n as [|n IH]; intros cn w k; cbn [candidates]; [reflexivity|].
  rewrite conn_addr_with_listens.
  destruct (conn_addr cn w) as [[a cn'] w']. now rewrite IH.
Qed.

Lemma candidates_length (n : nat) :
  forall cn w, List.length (candidates n cn w) = n.
Proof.
  induction n as [|n IH]; intros cn w; cbn [candidates]; [reflexivity|].
  destruct (conn_addr cn w) as [[a cn'] w']. cbn [List.length]. now rewrite IH.
Qed.

Lemma with_listens_self (w : world) : with_listens (listens w) w = w.
Proof. now destruct w. Qed.

(** The loop tries the candidates in order and stops at the first on which
    [net.Listen] succeeds. *)
Lemma bind_loop_spec (todo : nat) :
  forall network b,
    let cands := candidates todo (b_conn b) (b_world b) in
    let out := bind_loop todo network b in
    retries (b_conn (fst out)) = retries (b_conn b)
    /\ match first_free (listens (b_world b)) network cands with
       | Some k =>
           b_err (fst out) = None
           /\ b_addr (fst out) = nth k cands ""%string
           /\ b_listener (fst out) = Some (network, nth k cands ""%string)
           /\ snd out = map (Listen network) (firstn (S k) cands)
       | None =>
           snd out = map (Listen network) cands
           /\ (todo = 0 -> fst out = b)
           /\ (0 < todo ->
               (exists e, b_err (fst out) = Some e)
               /\ b_err (fst out) =
                  net_Listen (listens (b_world b) + (todo - 1)) network
                             (last cands ""%string)
               /\ b_addr (fst out) = last cands ""%string)
       end.
Proof.
  induction todo as [|n IH]; intros network b cands out; subst cands out.
  - cbn [bind_loop candidates first_free fst snd map].
    repeat split; auto; lia.
  - cbn [bind_loop candidates].
    pose proof (conn_addr_listens (b_conn b) (b_world b)) as Hl.
    pose proof (conn_addr_retries (b_conn b) (b_world b)) as Hr.
    destruct (conn_addr (b_conn b) (b_world b)) as [[a cn] w].
    cbn [fst snd] in Hl, Hr.
    unfold Listen_call. rewrite Hl. cbn [first_free].
    destruct (net_Listen (listens (b_world b)) network a) as [e|] eqn:El.
    + match goal with
      | |- context [bind_loop n network ?b0] =>
          specialize (IH network b0);
          cbn [b_conn b_world listens] in IH;
          destruct (bind_loop n network b0) as [b'' evs]
      end.
      change {| drawn := drawn w; listens := S (listens (b_world b)) |}
        with (with_listens (S (listens (b_world b))) w) in IH.
      rewrite candidates_with_listens in IH.
      cbn [fst snd] in *.
      destruct IH as [IHr IH]. split; [congruence|].
      destruct (first_free (S (listens (b_world b))) network (candidates n cn w))
        as [k|] eqn:Ef; cbn [option_map].
      * destruct IH as (H1 & H2 & H3 & H4).
        repeat split; auto. rewrite H4. reflexivity.
      * destruct IH as (H1 & H2 & H3). split; [now rewrite H1|].
        split; [discriminate|]. intros _.
        destruct n as [|n].
        -- rewrite (H2 eq_refl). cbn [b_err b_addr candidates last].
           rewrite Nat.sub_diag, Nat.add_0_r, El. eauto.
        -- destruct (H3 ltac:(lia)) as (He & Hv & Ha). split; [exact He|].
           rewrite Ha, Hv.
           replace (S (listens (b_world b)) + (S n - 1))
             with (listens (b_world b) + (S (S n) - 1)) by lia.
           pose proof (candidates_length (S n) cn w) as Hlen.
           destruct (candidates (S n) cn w); [discriminate|].
           split; reflexivity.
    + cbn [fst snd b_conn b_err b_addr b_listener nth firstn map].
      repeat split; auto.
Qed.

Lemma first_free_Some (cands : list string) :
  forall i network k,
    first_free i network cands = Some k <->
    (k < List.length cands
     /\ (forall j, j < k ->
                   net_Listen (i + j) network (nth j cands ""%string) <> None)
     /\ net_Listen (i + k) network (nth k cands ""%string) = None).
Proof.
  induction cands as [|a rest IH]; intros i network k; cbn [first_free].
  - split; [discriminate|]. cbn [List.length]. intros [H _]. lia.
  - destruct (net_Listen i network a) as [e|] eqn:E.
    + destruct (first_free (S i) network rest) as [k'|] eqn:Ef; cbn [option_map].
      * apply IH in Ef. destruct Ef as (Hk & Hb & Hf). split.
        -- intros [= <-]. cbn [List.length nth]. split; [lia|]. split.
           ++ intros [|j] Hj; cbn [nth].
              ** rewrite Nat.add_0_r, E. discriminate.
              ** rewrite Nat.add_succ_r. apply Hb. lia.
           ++ rewrite Nat.add_succ_r. exact Hf.
        -- intros (Hk0 & Hb0 & Hf0). destruct k as [|k].
           ++ rewrite Nat.add_0_r in Hf0. cbn [nth] in Hf0. congruence.
           ++ f_equal. f_equal.
              destruct (Nat.lt_trichotomy k k') as [Hlt|[Heq|Hgt]]; [|exact (eq_sym Heq)|].
              ** exfalso. apply (Hb k Hlt).
                 specialize (Hf0). cbn [nth] in Hf0.
                 now rewrite Nat.add_succ_r in Hf0.
              ** exfalso. apply (Hb0 (S k') ltac:(lia)).
                 cbn [nth]. now rewrite Nat.add_succ_r.
      * split; [discriminate|]. intros (Hk0 & Hb0 & Hf0). exfalso.
        destruct k as [|k].
        -- rewrite Nat.add_0_r in Hf0. cbn [nth] in Hf0. congruence.
        -- assert (Hs : first_free (S i) network rest = Some k).
           { apply IH. cbn [List.length] in Hk0. split; [lia|]. split.
             - intros j Hj. specialize (Hb0 (S j) ltac:(lia)).
               cbn [nth] in Hb0. now rewrite Nat.add_succ_r in Hb0.
             - cbn [nth] in Hf0. now rewrite Nat.add_succ_r in Hf0. }
           congruence.
    + split.
      * intros [= <-]. cbn [List.length nth]. rewrite Nat.add_0_r.
        split; [lia|]. split; [intros j Hj; lia | exact E].
      * intros (Hk0 & Hb0 & Hf0). destruct k as [|k]; [reflexivity|].
        exfalso. apply (Hb0 0 ltac:(lia)). cbn [nth]. now rewrite Nat.add_0_r.
Qed.

Lemma first_free_None (cands : list string) :
  forall i network,
    first_free i network cands = None <->
    (forall j, j < List.length cands ->
               net_Listen (i + j) network (nth j cands ""%string) <> None).
Proof.
  induction cands as [|a rest IH]; intros i network; cbn [first_free].
  - split; [|reflexivity]. cbn [List.length]. intros _ j Hj. lia.
  - destruct (net_Listen i network a) as [e|] eqn:E.
    + destruct (first_free (S i) network rest) as [k'|] eqn:Ef; cbn [option_map].
      * split; [discriminate|]. intros H. exfalso.
        apply first_free_Some in Ef. destruct Ef as (Hk & _ & Hf).
        apply (H (S k')); [cbn [List.length]; lia|].
        cbn [nth]. now rewrite Nat.add_succ_r.
      * split; [|reflexivity]. intros _ [|j] Hj; cbn [nth].
        -- rewrite Nat.add_0_r, E. discriminate.
        -- rewrite Nat.add_succ_r. apply (proj1 (IH (S i) network) Ef).
           cbn [List.length] in Hj. lia.
    + split; [discriminate|]. intros H. exfalso.
      apply (H 0); [cbn [List.length]; lia|].
      cbn [nth]. now rewrite Nat.add_0_r.
Qed.

(** ** The bootstrap: what [run] does *)

Lemma retries_pos (cn : connection) : 0 < Z.to_nat (retries cn).
Proof. destruct cn; cbn [retries]; unfold tcp_retries, unix_retries; lia. Qed.

Lemma run_spec (dflt r : rpcServer) (w : world)
      (accepts : list (conn + error)) :
  let cn := fst (chosen (conf r)) in
  let network := snd (chosen (conf r)) in
  let n := Z.to_nat (retries cn) in
  let cands := candidates n cn w in
  let h := prefix (conf r) in
  let objects := Output h "objects" (Go.Join (objs r) ", ") in
  let out := run dflt r w accepts in
  match first_free (listens w) network cands with
  | Some k =>
      result_of out = Looping
      /\ proto (conf (server_of out)) = network
      /\ addr (conf (server_of out)) = nth k cands ""%string
      /\ trace_of out =
         objects :: map (Listen network) (firstn (S k) cands)
           ++ [Output h "auth-token" (secret dflt);
               Output h "ready"
                 ("proto=" ++ network ++ " addr=" ++ nth k cands "")%string]
           ++ accept_loop h accepts
  | None =>
      (exists e,
          result_of out = Returned e
          /\ net_Listen (listens w + (n - 1)) network (last cands ""%string)
             = Some e)
      /\ proto (conf (server_of out)) = network
      /\ trace_of out =
         objects :: map (Listen network) cands
           ++ [Output h "fatal" (fatal_bind cn network)]
  end.
Proof.
  intros cn network n cands h objects out.
  subst out objects h cands n network cn.
  unfold run, chosen, result_of, server_of, trace_of.
  cbn [set_running conf prefix objs proto].
  destruct (String.eqb_spec (proto (conf r)) "tcp") as [Ep|Ep];
    cbn [fst snd];
    match goal with
    | |- context [bind_loop ?m ?p ?b0] =>
        pose proof (bind_loop_spec m p b0) as H;
        pose proof (retries_pos (b_conn b0)) as Hpos;
        cbv zeta in H;
        cbn [b_conn b_world] in H, Hpos;
        destruct (bind_loop m p b0) as [b evs]
    end;
    cbn [fst snd set_conf set_proto set_addr set_running conf proto addr
         prefix objs] in *;
    [rewrite Ep in *|];
    destruct H as [Hr H];
    match goal with
    | |- match first_free ?i ?p ?c with _ => _ end =>
        destruct (first_free i p c) as [k|]
    end.
  - destruct H as (He & Ha & Hl & Hev). rewrite He.
    cbn [fst snd conf proto addr set_conf set_addr]. unfold ready_line.
    cbn [proto addr set_addr]. rewrite Ha, Hev, Ep.
    repeat split; reflexivity.
  - destruct H as (Hev & _ & H). destruct (H Hpos) as ((e & He) & Hv & Ha).
    rewrite He in *. cbn [fst snd conf proto addr set_conf set_addr]. split.
    + exists e. split; [reflexivity|]. now rewrite <- Hv.
    + split; [exact Ep|]. rewrite Hev. unfold fatal_bind. now rewrite Hr.
  - destruct H as (He & Ha & Hl & Hev). rewrite He.
    cbn [fst snd conf proto addr set_conf set_addr set_proto].
    unfold ready_line. cbn [proto addr set_addr set_proto]. rewrite Ha, Hev.
    repeat split; reflexivity.
  - destruct H as (Hev & _ & H). destruct (H Hpos) as ((e & He) & Hv & Ha).
    rewrite He in *.
    cbn [fst snd conf proto addr set_conf set_addr set_proto]. split.
    + exists e. split; [reflexivity|]. now rewrite <- Hv.
    + split; [reflexivity|]. rewrite Hev. unfold fatal_bind. now rewrite Hr.
Qed.

Lemma filter_Listen_map (network : string) (l : list string) :
  filter is_Listen (map (Listen network) l) = map (Listen network) l.
Proof. induction l as [|a l IH]; cbn [map filter is_Listen]; congruence. Qed.

Lemma filter_Listen_accept (h : string) (accepts : list (conn + error)) :
  filter is_Listen (accept_loop h accepts) = [].
Proof.
  induction accepts as [|[c|e] rest IH]; cbn [accept_loop filter is_Listen];
    auto.
Qed.

Lemma filter_key_map_Listen (key network : string) (l : list string) :
  filter (has_key key) (map (Listen network) l) = [].
Proof. induction l as [|a l IH]; cbn [map filter has_key]; auto. Qed.

Lemma filter_key_accept (key h : string) (accepts : list (conn + error)) :
  (key =? "fatal")%string = false ->
  filter (has_key key) (accept_loop h accepts) = [].
Proof.
  intros Hk.
  induction accepts as [|[c|e] rest IH]; cbn [accept_loop filter has_key]; auto.
  rewrite String.eqb_sym, Hk. exact IH.
Qed.

(** The candidates of a TCP allocator whose cursor is past the privileged
    ports count upwards. *)
Lemma candidates_tcp_from (n : nat) :
  forall t w,
    (1023 <= t)%Z -> (t + Z.of_nat n <= Go.MaxInt)%Z ->
    candidates n (conn_tcp t) w =
    map (fun k => ("127.0.0.1:" ++ Go.itoa (t + 1 + Z.of_nat k))%string)
        (seq 0 n).
Proof.
  induction n as [|n IH]; intros t w Ht Hn; [reflexivity|].
  cbn [candidates conn_addr]. rewrite tcp_addr_next by (int_bounds; lia).
  cbn [seq map]. rewrite Z.add_0_r. f_equal.
  rewrite IH by lia. rewrite <- seq_shift, map_map.
  apply map_ext. intros k. do 2 f_equal. lia.
Qed.

Lemma candidates_tcp_unset (n : nat) (w : world) :
  (1023 + Z.of_nat n <= Go.MaxInt)%Z ->
  candidates n new_tcp w =
  map (fun k => ("127.0.0.1:" ++ Go.itoa (1024 + Z.of_nat k))%string)
      (seq 0 n).
Proof.
  intros Hn. destruct n as [|n]; [reflexivity|].
  unfold new_tcp. cbn [candidates conn_addr]. rewrite tcp_addr_unset.
  cbn [seq map]. f_equal.
  rewrite candidates_tcp_from by lia.
  rewrite <- seq_shift, map_map. apply map_ext. intros k. do 2 f_equal. lia.
Qed.

Lemma randstr_length (n : nat) (w : world) :
  String.length (fst (randstr entropy n w)) = n.
Proof.
  unfold randstr. cbn [fst].
  rewrite <- bytes_of_string_length. unfold Go.bytes_of_string.
  rewrite list_ascii_of_string_of_list_ascii, length_map. apply length_seq.
Qed.

Lemma printable_of_printable (k : nat) : printable (printable_of k) = true.
Proof.
  unfold printable, printable_of.
  pose proof (Nat.mod_upper_bound k 95 ltac:(lia)) as Hk.
  rewrite nat_ascii_embedding by lia.
  apply andb_true_intro. split; apply Nat.leb_le; lia.
Qed.

Lemma randstr_printable (n : nat) (w : world) :
  Forall (fun c => printable c = true)
         (Go.bytes_of_string (fst (randstr entropy n w))).
Proof.
  unfold randstr, Go.bytes_of_string. cbn [fst].
  rewrite list_ascii_of_string_of_list_ascii.
  apply Forall_forall. intros c Hc. apply in_map_iff in Hc.
  destruct Hc as (i & <- & _). apply printable_of_printable.
Qed.

(** The secret of the default server is as [authConn] needs it. *)
Lemma defaultServer_secret_ok (fl : flags) :
  secret_ok (secret (fst (defaultServer fl))).
Proof.
  unfold defaultServer.
  pose proof (randstr_length 64 world0) as Hl.
  pose proof (randstr_printable 64 world0) as Hp.
  destruct (randstr entropy 64 world0) as [s w]. cbn [fst snd] in Hl, Hp |- *.
  split; assumption.
Qed.

(** With an empty directory the Unix allocator hands out bare names. *)
Lemma candidates_unix_bare (n : nat) :
  forall w,
    Forall (fun a => exists w', a = fst (randstr entropy 8 w'))
           (candidates n (conn_unix "") w).
Proof.
  induction n as [|n IH]; intros w; cbn [candidates]; [constructor|].
  cbn [conn_addr]. unfold unix_addr.
  destruct (randstr entropy 8 w) as [name w'] eqn:E. cbn [String.eqb negb].
  constructor; [|apply IH].
  exists w. now rewrite E.
Qed.

Lemma append_inj_l (a b c : string) :
  (a ++ b)%string = (a ++ c)%string -> b = c.
Proof.
  induction a as [|x a IH]; cbn [String.append]; intros H; [exact H|].
  injection H as H. exact (IH H).
Qed.

Lemma first_free_bound (cands : list string) (i : nat) (network : string) :
  (exists k, first_free i network cands = Some k) <->
  (exists k, k < List.length cands
             /\ net_Listen (i + k) network (nth k cands ""%string) = None).
Proof.
  split.
  - intros [k Hk]. apply first_free_Some in Hk. exists k. tauto.
  - intros (k & Hk & Hf).
    destruct (first_free i network cands) as [k'|] eqn:E; [eauto|].
    exfalso. exact (proj1 (first_free_None cands i network) E k Hk Hf).
Qed.

Lemma retries_chosen (c : config) :
  Z.to_nat (retries (fst (chosen c))) =
  if (proto c =? "tcp")%string then 500 else 4.
Proof. unfold chosen. destruct (proto c =? "tcp")%string; reflexivity. Qed.

Lemma fatal_bind_chosen (c : config) :
  fatal_bind (fst (chosen c)) (snd (chosen c)) =
  (errorCodeConnFailed ++ ": Could not connect in "
     ++ (if (proto c =? "tcp")%string then "500" else "4")
     ++ " attemps, using " ++ snd (chosen c) ++ " protocol")%string.
Proof. unfold chosen. destruct (proto c =? "tcp")%string; reflexivity. Qed.

(** C4: the bind loop makes at most [retries] attempts (4 for unix, 500 for
    tcp), on the allocator's candidates in order, and stops at the first
    that succeeds: when the candidates before the k-th fail and the k-th
    succeeds, [run] goes on with the k-th address; when all fail, [run]
    has tried each once, writes the fatal line with the retry count and
    returns the last error.  The TCP candidates are the ports 1024 to
    1523. *)
Theorem run_bind_retry (dflt r : rpcServer) (w : world)
        (accepts : list (conn + error)) :
  let cn := fst (chosen (conf r)) in
  let network := snd (chosen (conf r)) in
  let n := Z.to_nat (retries cn) in
  let cands := candidates n cn w in
  let out := run dflt r w accepts in
  let attempts := filter is_Listen (trace_of out) in
  n = (if (proto (conf r) =? "tcp")%string then 500 else 4)
  /\ (exists m, m <= n /\ attempts = map (Listen network) (firstn m cands))
  /\ (forall k,
        k < n ->
        (forall j, j < k ->
           net_Listen (listens w + j) network (nth j cands ""%string) <> None) ->
        net_Listen (listens w + k) network (nth k cands ""%string) = None ->
        result_of out = Looping
        /\ addr (conf (server_of out)) = nth k cands ""%string
        /\ attempts = map (Listen network) (firstn (S k) cands))
  /\ ((forall j, j < n ->
          net_Listen (listens w + j) network (nth j cands ""%string) <> None) ->
      (exists e,
          result_of out = Returned e
          /\ net_Listen (listens w + (n - 1)) network (last cands ""%string)
             = Some e)
      /\ attempts = map (Listen network) cands
      /\ last (trace_of out) Accept =
         Output (prefix (conf r)) "fatal" (fatal_bind cn network)
      /\ fatal_bind cn network =
         (errorCodeConnFailed ++ ": Could not connect in "
            ++ (if (proto (conf r) =? "tcp")%string then "500" else "4")
            ++ " attemps, using " ++ network ++ " protocol")%string)
  /\ (proto (conf r) = "tcp"%string ->
      cands = map (fun k => ("127.0.0.1:" ++ Go.itoa (1024 + Z.of_nat k))%string)
                  (seq 0 500)).
Proof.
  intros cn network n cands out attempts.
  pose proof (run_spec dflt r w accepts) as H. cbv zeta in H.
  fold cn network n cands out in H.
  pose proof (candidates_length n cn w) as Hlen. fold cands in Hlen.
  assert (Hn : n = (if (proto (conf r) =? "tcp")%string then 500 else 4))
    by apply retries_chosen.
  split; [exact Hn|].
  destruct (first_free (listens w) network cands) as [k0|] eqn:Ef.
  - destruct H as (Hres & Hproto & Haddr & Htr).
    assert (Hatt : attempts = map (Listen network) (firstn (S k0) cands)).
    { subst attempts. rewrite Htr. cbn [filter is_Listen].
      rewrite !filter_app, filter_Listen_map, filter_Listen_accept.
      cbn [app filter is_Listen]. apply app_nil_r. }
    pose proof (proj1 (first_free_Some cands _ _ _) Ef) as (Hk0 & Hb0 & Hf0).
    split; [exists (S k0); split; [lia | exact Hatt]|].
    split; [|split].
    + intros k Hk Hb Hf.
      assert (E : first_free (listens w) network cands = Some k).
      { apply first_free_Some. rewrite Hlen. auto. }
      assert (k = k0) by congruence. subst k. auto.
    + intros Hall. exfalso. apply (Hall k0); [lia | exact Hf0].
    + intros Ep. subst cands n cn. unfold chosen. rewrite Ep. cbn [fst String.eqb].
      change (Z.to_nat (retries new_tcp)) with 500.
      apply candidates_tcp_unset. int_bounds. lia.
  - destruct H as ((e & Hres & He) & Hproto & Htr).
    assert (Hatt : attempts = map (Listen network) cands).
    { subst attempts. rewrite Htr. cbn [filter is_Listen].
      rewrite filter_app, filter_Listen_map. cbn [filter is_Listen].
      apply app_nil_r. }
    split; [exists n; split; [lia|]; rewrite Hatt; f_equal;
            rewrite <- Hlen; symmetry; apply firstn_all|].
    split; [|split].
    + intros k Hk Hb Hf. exfalso.
      apply (proj1 (first_free_None cands _ _) Ef k); [lia | exact Hf].
    + intros _. split; [eauto|]. split; [exact Hatt|]. split.
      * rewrite Htr, app_comm_cons. apply last_last.
      * apply fatal_bind_chosen.
    + intros Ep. subst cands n cn. unfold chosen. rewrite Ep. cbn [fst String.eqb].
      change (Z.to_nat (retries new_tcp)) with 500.
      apply candidates_tcp_unset. int_bounds. lia.
Qed.

Lemma count_key_cons (key : string) (e : event) (tr : list event) :
  count_key key (e :: tr) =
  (if has_key key e then 1 else 0) + count_key key tr.
Proof. unfold count_key. cbn [filter]. now destruct (has_key key e). Qed.

Lemma count_key_app (key : string) (tr1 tr2 : list event) :
  count_key key (tr1 ++ tr2) = count_key key tr1 + count_key key tr2.
Proof. unfold count_key. now rewrite filter_app, length_app. Qed.

Lemma count_key_Listen (key network : string) (l : list string) :
  count_key key (map (Listen network) l) = 0.
Proof. unfold count_key. now rewrite filter_key_map_Listen. Qed.

Lemma count_key_accept (key h : string) (accepts : list (conn + error)) :
  (key =? "fatal")%string = false ->
  count_key key (accept_loop h accepts) = 0.
Proof. intros H. unfold count_key. now rewrite filter_key_accept. Qed.

(** C7: every run writes the objects line once, first, before any bind
    attempt; when some attempt within the budget succeeds it then writes
    the auth-token line with the secret and the ready line with the final
    scheme and address, once each and in that order, and nothing of the
    kind otherwise. *)
Theorem run_handshake_order (r : rpcServer) (w : world)
        (accepts : list (conn + error)) :
  let cn := fst (chosen (conf r)) in
  let network := snd (chosen (conf r)) in
  let n := Z.to_nat (retries cn) in
  let cands := candidates n cn w in
  let h := prefix (conf r) in
  let out := Run r w accepts in
  let tr := trace_of out in
  let bound :=
    exists k, k < n
              /\ net_Listen (listens w + k) network (nth k cands ""%string)
                 = None in
  (exists binds rest,
      tr = Output h "objects" (Go.Join (objs r) ", ")
             :: map (Listen network) binds ++ rest
      /\ binds <> []
      /\ filter is_Listen rest = []
      /\ (result_of out = Looping ->
          rest = [Output h "auth-token" (secret r);
                  Output h "ready"
                    ("proto=" ++ proto (conf (server_of out)) ++ " addr="
                       ++ addr (conf (server_of out)))%string]
                   ++ accept_loop h accepts
          /\ proto (conf (server_of out)) = network
          /\ addr (conf (server_of out)) = last binds ""%string))
  /\ count_key "objects" tr = 1
  /\ (result_of out = Looping <-> bound)
  /\ (bound -> count_key "auth-token" tr = 1 /\ count_key "ready" tr = 1)
  /\ (~ bound -> count_key "auth-token" tr = 0 /\ count_key "ready" tr = 0).
Proof.
  intros cn network n cands h out tr bound.
  pose proof (run_spec r r w accepts) as H. cbv zeta in H.
  fold (Run r w accepts) in H. fold cn network n cands h out tr in H.
  pose proof (candidates_length n cn w) as Hlen. fold cands in Hlen.
  pose proof (retries_pos cn) as Hpos. fold n in Hpos.
  pose proof (first_free_bound cands (listens w) network) as Hb.
  rewrite Hlen in Hb. fold bound in Hb.
  destruct (first_free (listens w) network cands) as [k0|] eqn:Ef.
  - destruct H as (Hres & Hproto & Haddr & Htr).
    pose proof (proj1 (first_free_Some cands _ _ _) Ef) as (Hk0 & _ & _).
    assert (Hbound : bound) by (apply Hb; eauto).
    assert (Hlast : last (firstn (S k0) cands) ""%string = nth k0 cands ""%string).
    { clear -Hk0. revert k0 Hk0.
      induction cands as [|a l IH]; intros k Hk; cbn [List.length] in Hk; [lia|].
      destruct k as [|k]; [now destruct l|].
      cbn [nth]. rewrite <- (IH k) by lia.
      change (firstn (S (S k)) (a :: l)) with (a :: firstn (S k) l).
      destruct l; [cbn [List.length] in Hk; lia | reflexivity]. }
    split; [|split; [|split; [|split]]].
    + exists (firstn (S k0) cands).
      eexists. split; [exact Htr|]. split.
      * destruct cands; [cbn [List.length] in Hk0; lia | discriminate].
      * split.
        -- rewrite filter_app, filter_Listen_accept. reflexivity.
        -- intros _. rewrite Hproto, Haddr, Hlast. auto.
    + rewrite Htr, count_key_cons, !count_key_app, count_key_Listen.
      rewrite count_key_accept by reflexivity. reflexivity.
    + tauto.
    + intros _. rewrite Htr.
      rewrite !count_key_cons, !count_key_app, !count_key_Listen.
      rewrite !count_key_accept by reflexivity. split; reflexivity.
    + tauto.
  - destruct H as ((e & Hres & He) & Hproto & Htr).
    assert (Hnb : ~ bound).
    { intros Hbd. apply Hb in Hbd. destruct Hbd as [k Hk]. discriminate. }
    split; [|split; [|split; [|split]]].
    + exists cands. eexists. split; [exact Htr|]. split.
      * destruct cands; [cbn [List.length] in Hlen; lia | discriminate].
      * split; [reflexivity|]. rewrite Hres. discriminate.
    + rewrite Htr, count_key_cons, !count_key_app, count_key_Listen.
      reflexivity.
    + rewrite Hres. split; [discriminate | tauto].
    + tauto.
    + intros _. rewrite Htr.
      rewrite !count_key_cons, !count_key_app, !count_key_Listen.
      split; reflexivity.
Qed.

Lemma In_firstn {A} (x : A) (m : nat) (l : list A) :
  In x (firstn m l) -> In x l.
Proof.
  intros H. rewrite <- (firstn_skipn m l). apply in_or_app. now left.
Qed.

(** The bind attempts of a run are an initial segment of the candidates. *)
Lemma run_attempts (dflt r : rpcServer) (w : world)
      (accepts : list (conn + error)) :
  let cn := fst (chosen (conf r)) in
  let network := snd (chosen (conf r)) in
  exists m,
    filter is_Listen (trace_of (run dflt r w accepts)) =
    map (Listen network)
        (firstn m (candidates (Z.to_nat (retries cn)) cn w)).
Proof.
  intros cn network.
  pose proof (run_spec dflt r w accepts) as H. cbv zeta in H.
  fold cn network in H.
  destruct (first_free (listens w) network
              (candidates (Z.to_nat (retries cn)) cn w)) as [k0|].
  - destruct H as (_ & _ & _ & Htr). exists (S k0). rewrite Htr.
    cbn [filter is_Listen].
    rewrite !filter_app, filter_Listen_map, filter_Listen_accept.
    cbn [app filter is_Listen]. apply app_nil_r.
  - destruct H as (_ & _ & Htr).
    exists (List.length (candidates (Z.to_nat (retries cn)) cn w)).
    rewrite Htr, firstn_all. cbn [filter is_Listen].
    rewrite filter_app, filter_Listen_map. cbn [filter is_Listen].
    apply app_nil_r.
Qed.

(** C6: on exhaustion of the retries the last line [run] writes is the
    fatal line, whose text is that of the source, with the word spelt
    attemps; it is not the line of the specification. *)
Theorem fatal_line_on_exhaustion (dflt r : rpcServer) (w : world)
        (accepts : list (conn + error)) (e : error) :
  result_of (run dflt r w accepts) = Returned e ->
  let cn := fst (chosen (conf r)) in
  let network := snd (chosen (conf r)) in
  last (trace_of (run dflt r w accepts)) Accept =
  Output (prefix (conf r)) "fatal" (fatal_bind cn network)
  /\ fatal_bind cn network =
     (errorCodeConnFailed ++ ": Could not connect in " ++ Go.itoa (retries cn)
        ++ " attemps, using " ++ network ++ " protocol")%string
  /\ fatal_bind cn network <> spec_fatal_line (retries cn) network.
Proof.
  intros Hret cn network.
  pose proof (run_spec dflt r w accepts) as H. cbv zeta in H.
  fold cn network in H.
  destruct (first_free (listens w) network
              (candidates (Z.to_nat (retries cn)) cn w)) as [k0|].
  - destruct H as (Hres & _). rewrite Hres in Hret. discriminate.
  - destruct H as (_ & _ & Htr). split; [|split].
    + rewrite Htr, app_comm_cons. apply last_last.
    + reflexivity.
    + unfold fatal_bind, spec_fatal_line. intros Heq.
      apply append_inj_l in Heq. cbn [String.append] in Heq.
      repeat match type of Heq with
             | String _ _ = String _ _ => injection Heq as Heq
             end.
      apply append_inj_l in Heq. discriminate Heq.
Qed.

(** C2: [run] builds its Unix allocator with [new(unix)], an empty
    directory: the configured [unixdir] has no effect on what [run] does,
    and every address it tries on the unix network is a bare 8-character
    name. *)
Theorem run_ignores_unixdir (dflt r : rpcServer) (w : world)
        (accepts : list (conn + error)) (dir : string) :
  let r' := set_conf (set_unixdir dir (conf r)) r in
  trace_of (run dflt r' w accepts) = trace_of (run dflt r w accepts)
  /\ result_of (run dflt r' w accepts) = result_of (run dflt r w accepts)
  /\ (fst (chosen (conf r')) = new_tcp \/ fst (chosen (conf r')) = conn_unix "")
  /\ (forall a,
        In (Listen "unix" a) (trace_of (run dflt r' w accepts)) ->
        String.length a = 8 /\ exists w', a = fst (randstr entropy 8 w')).
Proof.
  intros r'.
  assert (Hsame : trace_of (run dflt r' w accepts) = trace_of (run dflt r w accepts)
                  /\ result_of (run dflt r' w accepts)
                     = result_of (run dflt r w accepts)).
  { subst r'. unfold run, trace_of, result_of.
    cbn [set_running set_conf set_unixdir conf proto prefix objs addr].
    destruct (proto (conf r) =? "tcp")%string;
      cbn [set_running set_conf set_unixdir set_proto conf proto prefix objs addr];
      match goal with
      | |- context [bind_loop ?m ?p ?b0] => destruct (bind_loop m p b0) as [b evs]
      end;
      destruct (b_err b); split; reflexivity. }
  destruct Hsame as [Htr Hres].
  split; [exact Htr|]. split; [exact Hres|]. split.
  - unfold chosen. destruct (proto (conf r') =? "tcp")%string; auto.
  - intros a Hin. rewrite Htr in Hin.
    assert (Hf : In (Listen "unix" a)
                    (filter is_Listen (trace_of (run dflt r w accepts))))
      by (apply filter_In; auto).
    destruct (run_attempts dflt r w accepts) as [m Hm].
    rewrite Hm in Hf. apply in_map_iff in Hf. destruct Hf as (a0 & Ha0 & Hin0).
    apply In_firstn in Hin0. revert Ha0 Hin0. unfold chosen.
    destruct (proto (conf r) =? "tcp")%string; cbn [fst snd].
    + intros [=].
    + intros [= ->] Hin0.
      pose proof (candidates_unix_bare (Z.to_nat (retries new_unix)) w) as Hall.
      rewrite Forall_forall in Hall. destruct (Hall a Hin0) as [w' ->].
      split; [apply randstr_length | eauto].
Qed.

(** ** Serving connections *)

Lemma authConn_delivered (r : rpcServer) (c : conn) :
  secret_ok (secret r) ->
  (fst (authConn r c) = true <->
   delivered c 64 = Go.bytes_of_string (secret r)).
Proof.
  intros Hs. rewrite authConn_true, ReadFull_buffer.
  apply buffer_is_secret; [exact Hs | apply delivered_length].
Qed.

(** [authConn] only reads. *)
Lemma authConn_conn (r : rpcServer) (c : conn) :
  written (snd (authConn r c)) = written c
  /\ closed (snd (authConn r c)) = closed c.
Proof.
  unfold authConn, ReadFull.
  destruct (readLoop (incoming c) (List.length (Go.make 64))) as [d script'].
  destruct (Go.string_of_bytes (d ++ skipn (List.length d) (Go.make 64))
            =? secret r)%string; split; reflexivity.
Qed.

Lemma serveConn_rejected (r : rpcServer) (c : conn) :
  fst (authConn r c) = false ->
  serveConn r c = (Close (snd (authConn r c)), [DoRead; DoClose]).
Proof.
  intros H. unfold serveConn. destruct (authConn r c) as [ok c'].
  cbn [fst snd] in *. subst ok. reflexivity.
Qed.

Lemma run_steps_rejected (r : rpcServer) (c : conn) (k : nat) :
  fst (authConn r c) = false ->
  run_steps r k (spawn c) =
  match k with
  | 0 => (spawn c, [])
  | 1 => ({| g_conn := snd (authConn r c); g_pc := AtClose |}, [DoRead])
  | _ => ({| g_conn := Close (snd (authConn r c)); g_pc := Finished |},
          [DoRead; DoClose])
  end.
Proof.
  intros H.
  assert (E : forall k g, g_pc g = Finished -> run_steps r k g = (g, [])).
  { clear. induction k as [|k' IH]; intros g Hg; [reflexivity|].
    cbn [run_steps]. unfold go_step. rewrite Hg. now rewrite (IH g Hg). }
  destruct k as [|[|k]]; [reflexivity| |].
  - cbn [run_steps]. unfold go_step, spawn. cbn [g_pc g_conn].
    destruct (authConn r c) as [ok c']. cbn [fst snd] in *. subst ok.
    reflexivity.
  - cbn [run_steps]. unfold go_step at 1, spawn. cbn [g_pc g_conn].
    destruct (authConn r c) as [ok c']. cbn [fst snd] in *. subst ok.
    unfold go_step at 1. cbn [g_pc g_conn].
    rewrite E by reflexivity. reflexivity.
Qed.

Lemma run_steps_add (r : rpcServer) (k1 k2 : nat) (g : goroutine) :
  run_steps r (k1 + k2) g =
  let (g1, e1) := run_steps r k1 g in
  let (g2, e2) := run_steps r k2 g1 in
  (g2, e1 ++ e2).
Proof.
  revert g. induction k1 as [|k1 IH]; intros g; cbn [run_steps Nat.add].
  - now destruct (run_steps r k2 g).
  - destruct (go_step r g) as [g' evs]. rewrite IH.
    destruct (run_steps r k1 g') as [g1 e1].
    destruct (run_steps r k2 g1) as [g2 e2]. now rewrite app_assoc.
Qed.

Lemma update_nth_length {A} (i : nat) (x : A) (l : list A) :
  List.length (update_nth i x l) = List.length l.
Proof.
  revert i; induction l as [|y l IH]; intros [|i]; cbn [update_nth List.length];
    auto.
Qed.

Lemma nth_error_update_nth_eq {A} (i : nat) (x y : A) (l : list A) :
  nth_error l i = Some y -> nth_error (update_nth i x l) i = Some x.
Proof.
  revert i; induction l as [|z l IH]; intros [|i]; cbn [update_nth nth_error];
    try discriminate; auto.
Qed.

Lemma nth_error_update_nth_neq {A} (i j : nat) (x : A) (l : list A) :
  i <> j -> nth_error (update_nth j x l) i = nth_error l i.
Proof.
  revert i j; induction l as [|z l IH]; intros [|i] [|j] H;
    cbn [update_nth nth_error]; auto; try lia.
Qed.

Lemma events_of_app (i : nat) (t1 t2 : list (nat * conn_event)) :
  events_of i (t1 ++ t2) = events_of i t1 ++ events_of i t2.
Proof. unfold events_of. now rewrite filter_app, map_app. Qed.

Lemma events_of_same (i : nat) (evs : list conn_event) :
  events_of i (map (pair i) evs) = evs.
Proof.
  unfold events_of. induction evs as [|e evs IH]; cbn [map filter fst];
    [reflexivity|].
  rewrite Nat.eqb_refl. cbn [map snd]. now rewrite IH.
Qed.

Lemma events_of_other (i j : nat) (evs : list conn_event) :
  i <> j -> events_of i (map (pair j) evs) = [].
Proof.
  intros H. unfold events_of.
  induction evs as [|e evs IH]; cbn [map filter fst]; [reflexivity|].
  destruct (Nat.eqb_spec j i); [congruence | exact IH].
Qed.

Lemma In_events_of (i : nat) (e : conn_event) (tr : list (nat * conn_event)) :
  In (i, e) tr <-> In e (events_of i tr).
Proof.
  unfold events_of. rewrite in_map_iff. split.
  - intros H. exists (i, e). split; [reflexivity|].
    apply filter_In. split; [exact H|]. cbn [fst]. apply Nat.eqb_refl.
  - intros ([j e'] & He & Hin). cbn [snd] in He. subst e'.
    apply filter_In in Hin. destruct Hin as [Hin Hj]. cbn [fst] in Hj.
    apply Nat.eqb_eq in Hj. now subst j.
Qed.

(** Goroutines do not interfere: under any interleaving, a goroutine of the
    pool has taken some number of its own steps and nothing else. *)
Lemma exec_project (r : rpcServer) (acts : list action) :
  forall pool i g,
    nth_error pool i = Some g ->
    exists k,
      nth_error (fst (exec r acts pool)) i = Some (fst (run_steps r k g))
      /\ events_of i (snd (exec r acts pool)) = snd (run_steps r k g).
Proof.
  induction acts as [|a rest IH]; intros pool i g Hg.
  - exists 0. cbn [exec run_steps fst snd]. auto.
  - cbn [exec]. destruct a as [c|j]; cbn [act].
    + assert (Hg' : nth_error (pool ++ [spawn c]) i = Some g).
      { rewrite nth_error_app1; [exact Hg|].
        apply nth_error_Some. congruence. }
      destruct (IH _ _ _ Hg') as (k & H1 & H2). exists k.
      destruct (exec r rest (pool ++ [spawn c])) as [p t]. auto.
    + destruct (nth_error pool j) as [gj|] eqn:Ej.
      * destruct (go_step r gj) as [gj' evs] eqn:Es.
        destruct (Nat.eq_dec i j) as [->|Hij].
        -- assert (gj = g) by congruence. subst gj.
           pose proof (nth_error_update_nth_eq j gj' g pool Hg) as Hg'.
           destruct (IH _ _ _ Hg') as (k & H1 & H2). exists (S k).
           cbn [run_steps]. rewrite Es.
           destruct (exec r rest (update_nth j gj' pool)) as [p t].
           destruct (run_steps r k gj') as [g'' evs'']. cbn [fst snd] in *.
           split; [exact H1|].
           now rewrite events_of_app, events_of_same, H2.
        -- assert (Hg' : nth_error (update_nth j gj' pool) i = Some g)
             by now rewrite nth_error_update_nth_neq.
           destruct (IH _ _ _ Hg') as (k & H1 & H2). exists k.
           destruct (exec r rest (update_nth j gj' pool)) as [p t].
           cbn [fst snd] in *. split; [exact H1|].
           now rewrite events_of_app, events_of_other.
      * destruct (IH _ _ _ Hg) as (k & H1 & H2). exists k.
        destruct (exec r rest pool) as [p t]. auto.
Qed.

(** The same for a connection that is yet to be started. *)
Lemma exec_spawned (r : rpcServer) (acts : list action) :
  forall pool j c,
    nth_error (spawned acts) j = Some c ->
    exists k,
      nth_error (fst (exec r acts pool)) (List.length pool + j)
      = Some (fst (run_steps r k (spawn c)))
      /\ events_of (List.length pool + j) (snd (exec r acts pool))
         = snd (run_steps r k (spawn c)).
Proof.
  induction acts as [|a rest IH]; intros pool j c Hc.
  - destruct j; discriminate.
  - cbn [exec]. destruct a as [c0|m]; cbn [act spawned] in *.
    + destruct j as [|j].
      * injection Hc as ->.
        assert (Hg : nth_error (pool ++ [spawn c]) (List.length pool + 0)
                     = Some (spawn c)).
        { rewrite Nat.add_0_r, nth_error_app2, Nat.sub_diag by lia.
          reflexivity. }
        destruct (exec_project r rest _ _ _ Hg) as (k & H1 & H2). exists k.
        destruct (exec r rest (pool ++ [spawn c])) as [p t]. auto.
      * cbn [nth_error] in Hc.
        destruct (IH (pool ++ [spawn c0]) j c Hc) as (k & H1 & H2). exists k.
        rewrite length_app in H1, H2. cbn [List.length] in H1, H2.
        replace (List.length pool + 1 + j) with (List.length pool + S j)
          in H1, H2 by lia.
        destruct (exec r rest (pool ++ [spawn c0])) as [p t]. auto.
    + destruct (nth_error pool m) as [gm|] eqn:Em.
      * destruct (go_step r gm) as [gm' evs].
        destruct (IH (update_nth m gm' pool) j c Hc) as (k & H1 & H2).
        exists k. rewrite update_nth_length in H1, H2.
        destruct (exec r rest (update_nth m gm' pool)) as [p t].
        cbn [fst snd] in *. split; [exact H1|].
        rewrite events_of_app, events_of_other; [exact H2|].
        assert (m < List.length pool) by (apply nth_error_Some; congruence).
        lia.
      * destruct (IH pool j c Hc) as (k & H1 & H2). exists k.
        destruct (exec r rest pool) as [p t]. auto.
Qed.

Lemma exec_app (r : rpcServer) (a1 a2 : list action) :
  forall pool,
    exec r (a1 ++ a2) pool =
    let (p1, t1) := exec r a1 pool in
    let (p2, t2) := exec r a2 p1 in
    (p2, t1 ++ t2).
Proof.
  induction a1 as [|a rest IH]; intros pool.
  - rewrite app_nil_l. cbn [exec]. now destruct (exec r a2 pool).
  - rewrite <- app_comm_cons. cbn [exec].
    destruct (act r a pool) as [p0 t0]. rewrite IH.
    destruct (exec r rest p0) as [p1 t1].
    destruct (exec r a2 p1) as [p2 t2]. now rewrite app_assoc.
Qed.

Lemma exec_two_steps (r : rpcServer) (pool : list goroutine) (i : nat)
      (g : goroutine) :
  nth_error pool i = Some g ->
  nth_error (fst (exec r [Step i; Step i] pool)) i
  = Some (fst (run_steps r 2 g))
  /\ events_of i (snd (exec r [Step i; Step i] pool)) = snd (run_steps r 2 g).
Proof.
  intros Hg. cbn [exec act run_steps]. rewrite Hg.
  destruct (go_step r g) as [g1 e1].
  rewrite (nth_error_update_nth_eq i g1 g pool Hg).
  destruct (go_step r g1) as [g2 e2]. cbn [fst snd].
  split.
  - apply nth_error_update_nth_eq with g1.
    now apply nth_error_update_nth_eq with g.
  - rewrite !app_nil_r, events_of_app, !events_of_same. reflexivity.
Qed.

(** C8: a connection whose first 64 bytes are not the secret is closed by
    [serveConn] without a call of the engine's [ServeConn] and without a
    byte written to the peer.  Under any interleaving of any number of
    goroutines, the goroutine of such a connection never reaches
    [ServeConn] and never writes, and once it has taken its two steps the
    connection is closed. *)
Theorem serveConn_rejects (r : rpcServer) (acts : list action) (i : nat)
        (c : conn) :
  secret_ok (secret r) ->
  delivered c 64 <> Go.bytes_of_string (secret r) ->
  nth_error (spawned acts) i = Some c ->
  (serveConn r c = (Close (snd (authConn r c)), [DoRead; DoClose])
   /\ written (fst (serveConn r c)) = written c
   /\ closed (fst (serveConn r c)) = true)
  /\ ~ In (i, DoServeConn) (snd (exec r acts []))
  /\ (exists g,
        nth_error (fst (exec r acts [])) i = Some g
        /\ written (g_conn g) = written c
        /\ g_pc g <> AtServe
        /\ (g_pc g = Finished ->
            closed (g_conn g) = true
            /\ events_of i (snd (exec r acts [])) = [DoRead; DoClose]))
  /\ (exists g,
        nth_error (fst (exec r (acts ++ [Step i; Step i]) [])) i = Some g
        /\ g_pc g = Finished
        /\ closed (g_conn g) = true
        /\ written (g_conn g) = written c
        /\ events_of i (snd (exec r (acts ++ [Step i; Step i]) []))
           = [DoRead; DoClose]).
Proof using rpc_ServeConn.
  clear entropy net_Listen Separator path_Join errorCodeConnFailed.
  intros Hs Hbad Hc.
  assert (Hrej : fst (authConn r c) = false).
  { apply not_true_is_false. intros Ht.
    now apply (authConn_delivered r c Hs) in Ht. }
  destruct (authConn_conn r c) as [Hw Hcl].
  destruct (exec_spawned r acts [] i c Hc) as (k & Hg & Hev).
  cbn [List.length Nat.add] in Hg, Hev.
  split; [|split; [|split]].
  - rewrite (serveConn_rejected r c Hrej). cbn [fst Close written closed]. auto.
  - rewrite In_events_of, Hev, (run_steps_rejected r c k Hrej).
    destruct k as [|[|k]]; cbn [snd In]; intuition discriminate.
  - eexists. split; [exact Hg|].
    rewrite (run_steps_rejected r c k Hrej).
    rewrite (run_steps_rejected r c k Hrej) in Hev.
    destruct k as [|[|k]]; cbn [fst snd g_conn g_pc spawn Close written closed]
      in Hev |- *; repeat split; auto; try discriminate.
  - rewrite exec_app.
    destruct (exec r acts []) as [p1 t1] eqn:E1. cbn [fst snd] in Hg, Hev.
    destruct (exec_two_steps r p1 i _ Hg) as [Hg2 Hev2].
    destruct (exec r [Step i; Step i] p1) as [p2 t2].
    cbn [fst snd] in Hg2, Hev2 |- *.
    eexists. split; [exact Hg2|].
    rewrite events_of_app, Hev, Hev2.
    pose proof (run_steps_add r k 2 (spawn c)) as Hadd.
    destruct (run_steps r k (spawn c)) as [g1 e1]. cbn [fst snd].
    destruct (run_steps r 2 g1) as [g2 e2]. cbn [fst snd].
    rewrite (run_steps_rejected r c (k + 2) Hrej) in Hadd.
    replace (k + 2) with (S (S k)) in Hadd by lia.
    injection Hadd as <- <-.
    cbn [g_conn g_pc Close written closed]. auto.
Qed.

(** ** More on authentication *)

Lemma readLoop_stream (script : list chunk) :
  forall room,
    stream script =
    fst (readLoop script room) ++ stream (snd (readLoop script room)).
Proof.
  unfold stream.
  induction script as [|[d e] rest IH]; intros [|n];
    cbn [readLoop fst snd app]; try reflexivity.
  destruct (List.length d <=? S n) eqn:E.
  - destruct e as [err|]; cbn [fst snd map concat]; [reflexivity|].
    specialize (IH (S n - List.length d)).
    destruct (readLoop rest (S n - List.length d)) as [d' rest'].
    cbn [fst snd] in *. rewrite IH. now rewrite app_assoc.
  - cbn [fst snd map concat]. rewrite app_assoc. now rewrite firstn_skipn.
Qed.

Lemma authConn_incoming (r : rpcServer) (c : conn) :
  incoming (snd (authConn r c)) = snd (readLoop (incoming c) 64).
Proof.
  unfold authConn, ReadFull.
  change (List.length (Go.make 64)) with 64.
  destruct (readLoop (incoming c) 64) as [d script'].
  destruct (Go.string_of_bytes (d ++ skipn (List.length d) (Go.make 64))
            =? secret r)%string; reflexivity.
Qed.

Lemma readLoop_error_free (script : list chunk) :
  forall room,
    error_free script = true ->
    fst (readLoop script room) = firstn room (stream script).
Proof.
  unfold stream.
  induction script as [|[d e] rest IH]; intros [|n] Hf;
    cbn [readLoop fst map concat]; try reflexivity.
  cbn [error_free forallb snd] in Hf. apply andb_prop in Hf as [He Hf].
  destruct e as [err|]; [discriminate|].
  change (fst (d, @None error)) with d.
  destruct (Nat.leb_spec (List.length d) (S n)) as [Hle|Hgt].
  - specialize (IH (S n - List.length d) Hf).
    destruct (readLoop rest (S n - List.length d)) as [d' rest'].
    cbn [fst] in *. rewrite firstn_app, (firstn_all2 d Hle). now rewrite IH.
  - cbn [fst]. rewrite firstn_app.
    replace (S n - List.length d) with 0 by lia.
    cbn [firstn]. now rewrite app_nil_r.
Qed.

Lemma ReadFull_length (c : conn) (n : nat) :
  List.length (fst (ReadFull c (Go.make n))) = n.
Proof.
  rewrite ReadFull_buffer, length_app, repeat_length.
  pose proof (delivered_length c n). lia.
Qed.

(** X1: [authConn] takes at most 64 bytes from the connection, the first
    ones, and leaves the bytes after them in place and in order; it writes
    nothing and does not close. *)
Theorem authConn_takes_a_prefix (r : rpcServer) (c : conn) :
  let c' := snd (authConn r c) in
  stream (incoming c) = delivered c 64 ++ stream (incoming c')
  /\ List.length (delivered c 64) <= 64
  /\ written c' = written c
  /\ closed c' = closed c.
Proof.
  intros c'. subst c'. rewrite authConn_incoming.
  split; [apply readLoop_stream|]. split; [apply delivered_length|].
  apply authConn_conn.
Qed.

(** X2: when no read reports an error, the answer of [authConn] depends
    only on the bytes sent, not on how they are split into reads; with 64
    bytes or more it is true exactly when the first 64 are the secret. *)
Theorem authConn_ignores_chunking (r : rpcServer) (c1 c2 : conn) :
  error_free (incoming c1) = true ->
  error_free (incoming c2) = true ->
  stream (incoming c1) = stream (incoming c2) ->
  fst (authConn r c1) = fst (authConn r c2)
  /\ (64 <= List.length (stream (incoming c1)) ->
      (fst (authConn r c1) = true <->
       firstn 64 (stream (incoming c1)) = Go.bytes_of_string (secret r))).
Proof.
  intros H1 H2 Hs.
  assert (Hd : delivered c1 64 = delivered c2 64).
  { unfold delivered. rewrite !readLoop_error_free by assumption. now rewrite Hs. }
  assert (Hb : fst (ReadFull c1 (Go.make 64)) = fst (ReadFull c2 (Go.make 64))).
  { now rewrite !ReadFull_buffer, Hd. }
  split.
  - destruct (fst (authConn r c1)) eqn:E1.
    + symmetry. apply authConn_true. rewrite <- Hb. now apply authConn_true.
    + destruct (fst (authConn r c2)) eqn:E2; [|reflexivity].
      apply authConn_true in E2. rewrite <- Hb in E2.
      apply authConn_true in E2. congruence.
  - intros Hlen. rewrite authConn_true, ReadFull_buffer.
    unfold delivered. rewrite readLoop_error_free by assumption.
    rewrite length_firstn, Nat.min_l by lia.
    rewrite Nat.sub_diag. cbn [repeat]. now rewrite app_nil_r.
Qed.

(** X3: a server whose secret is not 64 bytes long accepts no connection. *)
Theorem authConn_needs_64_byte_secret (r : rpcServer) (c : conn) :
  String.length (secret r) <> 64 -> fst (authConn r c) = false.
Proof.
  intros Hlen. apply not_true_is_false. intros Ht.
  apply authConn_true in Ht. apply Hlen.
  rewrite <- bytes_of_string_length, <- Ht. apply ReadFull_length.
Qed.

(** X4: the buffer of [authConn] starts as zeros and a short read is not
    told apart: when the secret ends in zero bytes, a peer that delivers
    only the bytes before them is accepted. *)
Theorem authConn_zero_tail (r : rpcServer) (c : conn) (k : nat) :
  String.length (secret r) = 64 ->
  Go.bytes_of_string (secret r) = delivered c 64 ++ repeat Ascii.zero k ->
  fst (authConn r c) = true.
Proof.
  intros Hlen Hs. apply authConn_true. rewrite ReadFull_buffer, Hs.
  f_equal. f_equal.
  pose proof (f_equal (@List.length byte) Hs) as Hl.
  rewrite bytes_of_string_length, Hlen, length_app, repeat_length in Hl. lia.
Qed.

(** ** More on serving connections *)

Lemma serveConn_accepted (r : rpcServer) (c : conn) :
  fst (authConn r c) = true ->
  serveConn r c =
  (Close (rpc_ServeConn (snd (authConn r c))),
   [DoRead; DoServeConn; DoClose]).
Proof.
  intros H. unfold serveConn. destruct (authConn r c) as [ok c'].
  cbn [fst snd] in *. subst ok. reflexivity.
Qed.

Lemma run_steps_finished (r : rpcServer) (k : nat) (g : goroutine) :
  g_pc g = Finished -> run_steps r k g = (g, []).
Proof.
  revert g. induction k as [|k IH]; intros g Hg; [reflexivity|].
  cbn [run_steps]. unfold go_step. rewrite Hg. now rewrite (IH g Hg).
Qed.

Lemma run_steps_accepted (r : rpcServer) (c : conn) (k : nat) :
  fst (authConn r c) = true ->
  run_steps r k (spawn c) =
  match k with
  | 0 => (spawn c, [])
  | 1 => ({| g_conn := snd (authConn r c); g_pc := AtServe |}, [DoRead])
  | 2 => ({| g_conn := rpc_ServeConn (snd (authConn r c)); g_pc := AtClose |},
          [DoRead; DoServeConn])
  | _ => ({| g_conn := Close (rpc_ServeConn (snd (authConn r c)));
             g_pc := Finished |},
          [DoRead; DoServeConn; DoClose])
  end.
Proof.
  intros H. destruct k as [|[|[|k]]]; [reflexivity| | |];
    cbn [run_steps]; unfold go_step at 1, spawn; cbn [g_pc g_conn];
    destruct (authConn r c) as [ok c']; cbn [fst snd] in H |- *; subst ok;
    try reflexivity;
    unfold go_step at 1; cbn [g_pc g_conn]; try reflexivity.
  unfold go_step at 1. cbn [g_pc g_conn].
  rewrite run_steps_finished by reflexivity. reflexivity.
Qed.

Lemma run_steps_events (r : rpcServer) (c : conn) (k : nat) :
  snd (run_steps r k (spawn c)) = firstn k (serve_events r c).
Proof.
  unfold serve_events. destruct (fst (authConn r c)) eqn:E.
  - rewrite (run_steps_accepted r c k E).
    destruct k as [|[|[|k]]]; cbn [snd firstn]; rewrite ?firstn_nil;
      reflexivity.
  - rewrite (run_steps_rejected r c k E).
    destruct k as [|[|k]]; cbn [snd firstn]; rewrite ?firstn_nil;
      reflexivity.
Qed.

Lemma exec_indices (r : rpcServer) (acts : list action) :
  forall pool i e,
    In (i, e) (snd (exec r acts pool)) ->
    i < List.length pool + List.length (spawned acts).
Proof.
  induction acts as [|a rest IH]; intros pool i e Hin; [contradiction|].
  cbn [exec] in Hin. destruct a as [c|j]; cbn [act spawned List.length] in *.
  - specialize (IH (pool ++ [spawn c]) i e).
    destruct (exec r rest (pool ++ [spawn c])) as [p t]. cbn [snd app] in *.
    specialize (IH Hin). rewrite length_app in IH. cbn [List.length] in IH. lia.
  - destruct (nth_error pool j) as [gj|] eqn:Ej.
    + destruct (go_step r gj) as [gj' evs].
      specialize (IH (update_nth j gj' pool) i e).
      destruct (exec r rest (update_nth j gj' pool)) as [p t]. cbn [snd] in *.
      apply in_app_or in Hin. destruct Hin as [Hin|Hin].
      * apply in_map_iff in Hin. destruct Hin as (e' & [= <- <-] & _).
        assert (j < List.length pool) by (apply nth_error_Some; congruence).
        lia.
      * specialize (IH Hin). rewrite update_nth_length in IH. exact IH.
    + specialize (IH pool i e). destruct (exec r rest pool) as [p t].
      cbn [snd app] in *. auto.
Qed.

(** X5: [serveConn] closes the connection on every path; it calls the
    engine exactly when [authConn] accepts, once, and then on the
    connection as [authConn] left it: with a well-formed secret, right after
    the 64 bytes of the token. *)
Theorem serveConn_paths (r : rpcServer) (c : conn) :
  closed (fst (serveConn r c)) = true
  /\ snd (serveConn r c) = serve_events r c
  /\ (fst (authConn r c) = true ->
      fst (serveConn r c) = Close (rpc_ServeConn (snd (authConn r c))))
  /\ (secret_ok (secret r) -> fst (authConn r c) = true ->
      stream (incoming c) =
      Go.bytes_of_string (secret r) ++ stream (incoming (snd (authConn r c)))).
Proof using rpc_ServeConn.
  clear entropy net_Listen Separator path_Join errorCodeConnFailed.
  unfold serve_events. destruct (fst (authConn r c)) eqn:E.
  - rewrite (serveConn_accepted r c E). cbn [fst snd Close closed].
    repeat split; auto. intros Hs _.
    destruct (authConn_conn r c) as [_ _].
    rewrite <- (proj1 (authConn_delivered r c Hs) E).
    rewrite authConn_incoming. apply readLoop_stream.
  - rewrite (serveConn_rejected r c E). cbn [fst snd Close closed].
    repeat split; auto; discriminate.
Qed.

(** X6: under any interleaving, what a goroutine has done with its
    connection is an initial part of read, serve, close when [authConn]
    accepts and of read, close when it does not; the engine is called only
    on connections that delivered the secret, and nothing happens on a
    connection that was not started. *)
Theorem goroutine_event_order (r : rpcServer) (acts : list action) (i : nat)
        (c : conn) :
  nth_error (spawned acts) i = Some c ->
  (exists k,
      events_of i (snd (exec r acts [])) = firstn k (serve_events r c))
  /\ (In (i, DoServeConn) (snd (exec r acts [])) ->
      fst (authConn r c) = true)
  /\ (secret_ok (secret r) ->
      In (i, DoServeConn) (snd (exec r acts [])) ->
      delivered c 64 = Go.bytes_of_string (secret r))
  /\ (forall j e, In (j, e) (snd (exec r acts [])) ->
                  j < List.length (spawned acts)).
Proof using rpc_ServeConn.
  clear entropy net_Listen Separator path_Join errorCodeConnFailed.
  intros Hc.
  destruct (exec_spawned r acts [] i c Hc) as (k & _ & Hev).
  cbn [List.length Nat.add] in Hev. rewrite run_steps_events in Hev.
  assert (Hserve : In (i, DoServeConn) (snd (exec r acts [])) ->
                   fst (authConn r c) = true).
  { intros Hin. apply In_events_of in Hin. rewrite Hev in Hin.
    apply In_firstn in Hin. unfold serve_events in Hin.
    destruct (fst (authConn r c)); [reflexivity|].
    cbn [In] in Hin. intuition discriminate. }
  split; [eauto|]. split; [exact Hserve|]. split.
  - intros Hs Hin. apply (authConn_delivered r c Hs). auto.
  - intros j e Hin. apply (exec_indices r acts [] j e Hin).
Qed.

(** ** More on the accept loop *)

Lemma served_app (t1 t2 : list event) :
  served (t1 ++ t2) = served t1 ++ served t2.
Proof.
  induction t1 as [|e t1 IH]; [reflexivity|].
  rewrite <- app_comm_cons. destruct e; cbn [served]; rewrite IH; reflexivity.
Qed.

Lemma fatal_values_app (t1 t2 : list event) :
  fatal_values (t1 ++ t2) = fatal_values t1 ++ fatal_values t2.
Proof.
  induction t1 as [|e t1 IH]; [reflexivity|].
  rewrite <- app_comm_cons.
  destruct e as [p k v|n a| |c]; cbn [fatal_values]; rewrite IH;
    try reflexivity.
  now destruct (k =? "fatal")%string.
Qed.

Lemma served_map_Listen (network : string) (l : list string) :
  served (map (Listen network) l) = [].
Proof. induction l; cbn [map served]; auto. Qed.

Lemma fatal_values_map_Listen (network : string) (l : list string) :
  fatal_values (map (Listen network) l) = [].
Proof. induction l; cbn [map fatal_values]; auto. Qed.

Lemma filter_Accept_map_Listen (network : string) (l : list string) :
  filter is_Accept (map (Listen network) l) = [].
Proof. induction l; cbn [map filter is_Accept]; auto. Qed.

Lemma accept_loop_app (h : string) (a1 a2 : list (conn + error)) :
  accept_loop h (a1 ++ a2) = accept_loop h a1 ++ accept_loop h a2.
Proof.
  induction a1 as [|[c|e] a1 IH]; [reflexivity| |];
    rewrite <- app_comm_cons; cbn [accept_loop]; rewrite IH; reflexivity.
Qed.

Lemma accept_loop_served (h : string) (accepts : list (conn + error)) :
  served (accept_loop h accepts) = accepted accepts.
Proof.
  induction accepts as [|[c|e] rest IH]; cbn [accept_loop served accepted];
    congruence.
Qed.

Lemma accept_loop_fatal (h : string) (accepts : list (conn + error)) :
  fatal_values (accept_loop h accepts) =
  map (fun e => ("err-http-serve: " ++ e)%string) (accept_errors accepts).
Proof.
  induction accepts as [|[c|e] rest IH];
    cbn [accept_loop fatal_values accept_errors map String.eqb Ascii.eqb
         Bool.eqb];
    congruence.
Qed.

Lemma accept_loop_Accepts (h : string) (accepts : list (conn + error)) :
  List.length (filter is_Accept (accept_loop h accepts)) = List.length accepts.
Proof.
  induction accepts as [|[c|e] rest IH];
    cbn [accept_loop filter is_Accept List.length]; congruence.
Qed.

Lemma cons_app_assoc {A} (x : A) (l m n : list A) :
  x :: l ++ m ++ n = (x :: l ++ m) ++ n.
Proof. rewrite <- app_comm_cons. apply f_equal, app_assoc. Qed.

(** X7: once [run] has bound its listener it does not return, whatever
    [Accept] answers: each answer is one call of [Accept]; each connection
    is given to one goroutine, in the order of arrival; each error adds one
    fatal line with the error's text and nothing else; the server state is
    not touched. *)
Theorem run_accept_loop (dflt r : rpcServer) (w : world)
        (accepts : list (conn + error)) :
  result_of (run dflt r w []) = Looping ->
  let out := run dflt r w accepts in
  result_of out = Looping
  /\ server_of out = server_of (run dflt r w [])
  /\ trace_of out =
     trace_of (run dflt r w []) ++ accept_loop (prefix (conf r)) accepts
  /\ served (trace_of out) = accepted accepts
  /\ List.length (filter is_Accept (trace_of out)) = List.length accepts
  /\ fatal_values (trace_of out) =
     map (fun e => ("err-http-serve: " ++ e)%string) (accept_errors accepts).
Proof.
  intros Hloop out. subst out.
  pose proof (run_spec dflt r w accepts) as H.
  pose proof (run_spec dflt r w []) as H0. cbv zeta in H, H0.
  assert (Hsrv : server_of (run dflt r w accepts) = server_of (run dflt r w [])).
  { unfold run, server_of.
    destruct (proto (conf (set_running true r)) =? "tcp")%string;
      match goal with
      | |- context [bind_loop ?m ?p ?b0] => destruct (bind_loop m p b0) as [b evs]
      end;
      destruct (b_err b); reflexivity. }
  destruct (first_free (listens w) (snd (chosen (conf r)))
              (candidates (Z.to_nat (retries (fst (chosen (conf r)))))
                          (fst (chosen (conf r))) w)) as [k0|].
  - destruct H as (Hres & _ & _ & Htr). destruct H0 as (_ & _ & _ & Htr0).
    cbn [accept_loop] in Htr0. rewrite app_nil_r in Htr0.
    split; [exact Hres|]. split; [exact Hsrv|].
    assert (Happ : trace_of (run dflt r w accepts) =
                   trace_of (run dflt r w [])
                     ++ accept_loop (prefix (conf r)) accepts).
    { rewrite Htr, Htr0. apply cons_app_assoc. }
    split; [exact Happ|].
    rewrite Happ, Htr0.
    rewrite served_app, fatal_values_app, filter_app, length_app.
    cbn [served fatal_values filter is_Accept String.eqb Ascii.eqb Bool.eqb].
    rewrite served_app, fatal_values_app, filter_app.
    rewrite served_map_Listen, fatal_values_map_Listen,
      filter_Accept_map_Listen.
    cbn [app served fatal_values filter is_Accept String.eqb Ascii.eqb
         Bool.eqb List.length Nat.add].
    rewrite accept_loop_served, accept_loop_fatal, accept_loop_Accepts.
    repeat split.
  - destruct H0 as ((e & Hres & _) & _). rewrite Hres in Hloop. discriminate.
Qed.

(** ** More on the bootstrap *)

Lemma last_firstn_S {A} (l : list A) (d : A) :
  forall k, k < List.length l -> last (firstn (S k) l) d = nth k l d.
Proof.
  induction l as [|a l IH]; intros k Hk; cbn [List.length] in Hk; [lia|].
  destruct k as [|k]; [now destruct l|].
  cbn [nth]. rewrite <- (IH k) by lia.
  change (firstn (S (S k)) (a :: l)) with (a :: firstn (S k) l).
  destruct l; [cbn [List.length] in Hk; lia | reflexivity].
Qed.

Lemma last_map {A B} (f : A -> B) (l : list A) (d : A) (d' : B) :
  l <> [] -> last (map f l) d' = f (last l d).
Proof.
  induction l as [|a l IH]; intros Hne; [congruence|].
  destruct l as [|b l]; [reflexivity|].
  change (last (map f (a :: b :: l)) d') with (last (map f (b :: l)) d').
  change (last (a :: b :: l) d) with (last (b :: l) d).
  apply IH. discriminate.
Qed.

(** What [run] leaves in the server. *)
Lemma run_server (dflt r : rpcServer) (w : world)
      (accepts : list (conn + error)) :
  let cn := fst (chosen (conf r)) in
  let network := snd (chosen (conf r)) in
  let cands := candidates (Z.to_nat (retries cn)) cn w in
  let r' := server_of (run dflt r w accepts) in
  secret r' = secret r /\ objs r' = objs r /\ Server r' = Server r
  /\ running r' = true
  /\ prefix (conf r') = prefix (conf r)
  /\ unixdir (conf r') = unixdir (conf r)
  /\ proto (conf r') = network
  /\ addr (conf r') =
     match first_free (listens w) network cands with
     | Some k => nth k cands ""%string
     | None => last cands ""%string
     end.
Proof.
  intros cn network cands r'. subst r' cands network cn.
  unfold run, chosen, server_of.
  cbn [set_running conf prefix objs proto].
  destruct (String.eqb_spec (proto (conf r)) "tcp") as [Ep|Ep];
    cbn [fst snd];
    match goal with
    | |- context [bind_loop ?m ?p ?b0] =>
        pose proof (bind_loop_spec m p b0) as H;
        pose proof (retries_pos (b_conn b0)) as Hpos;
        cbv zeta in H;
        cbn [b_conn b_world] in H, Hpos;
        destruct (bind_loop m p b0) as [b evs]
    end;
    cbn [fst snd set_conf set_proto set_addr set_running conf proto addr
         prefix objs] in H, Hpos |- *;
    [rewrite Ep in H|];
    destruct H as [_ H];
    match type of H with
    | match first_free ?i ?p ?c with _ => _ end =>
        destruct (first_free i p c) as [k|]
    end.
  - destruct H as (He & Ha & _). rewrite He.
    cbn [fst snd Server secret objs running conf proto addr prefix unixdir
         set_conf set_addr].
    repeat split; auto.
  - destruct H as (_ & _ & H). destruct (H Hpos) as ((e & He) & _ & Ha).
    rewrite He.
    cbn [fst snd Server secret objs running conf proto addr prefix unixdir
         set_conf set_addr].
    repeat split; auto.
  - destruct H as (He & Ha & _). rewrite He.
    cbn [fst snd Server secret objs running conf proto addr prefix unixdir
         set_conf set_addr set_proto].
    repeat split; auto.
  - destruct H as (_ & _ & H). destruct (H Hpos) as ((e & He) & _ & Ha).
    rewrite He.
    cbn [fst snd Server secret objs running conf proto addr prefix unixdir
         set_conf set_addr set_proto].
    repeat split; auto.
Qed.

(** The bind attempts of a run, on success and on failure. *)
Lemma run_attempts_cases (dflt r : rpcServer) (w : world)
      (accepts : list (conn + error)) :
  let cn := fst (chosen (conf r)) in
  let network := snd (chosen (conf r)) in
  let cands := candidates (Z.to_nat (retries cn)) cn w in
  filter is_Listen (trace_of (run dflt r w accepts)) =
  map (Listen network)
      match first_free (listens w) network cands with
      | Some k => firstn (S k) cands
      | None => cands
      end.
Proof.
  intros cn network cands.
  pose proof (run_spec dflt r w accepts) as H. cbv zeta in H.
  fold cn network cands in H.
  destruct (first_free (listens w) network cands) as [k0|].
  - destruct H as (_ & _ & _ & Htr). rewrite Htr. cbn [filter is_Listen].
    rewrite !filter_app, filter_Listen_map, filter_Listen_accept.
    cbn [app filter is_Listen]. apply app_nil_r.
  - destruct H as (_ & _ & Htr). rewrite Htr. cbn [filter is_Listen].
    rewrite filter_app, filter_Listen_map. cbn [filter is_Listen].
    apply app_nil_r.
Qed.

(** X8: [run] changes nothing of the server but [running], [conf.proto]
    and [conf.addr]: the secret, the names, the engine, the prefix and the
    directory stay; [conf.proto] ends as tcp when it was exactly tcp and as
    unix for any other value; [conf.addr] ends as the address of the last
    bind attempt, on failure too. *)
Theorem run_changes_only_conf (dflt r : rpcServer) (w : world)
        (accepts : list (conn + error)) :
  let out := run dflt r w accepts in
  let r' := server_of out in
  secret r' = secret r /\ objs r' = objs r /\ Server r' = Server r
  /\ running r' = true
  /\ prefix (conf r') = prefix (conf r)
  /\ unixdir (conf r') = unixdir (conf r)
  /\ proto (conf r') =
     (if (proto (conf r) =? "tcp")%string then "tcp" else "unix")%string
  /\ last (filter is_Listen (trace_of out)) Accept =
     Listen (proto (conf r')) (addr (conf r')).
Proof.
  intros out r'. subst r' out.
  pose proof (run_server dflt r w accepts) as H. cbv zeta in H.
  destruct H as (H1 & H2 & H3 & H4 & H5 & H6 & H7 & H8).
  repeat (split; [assumption|]). split.
  - rewrite H7. unfold chosen.
    now destruct (proto (conf r) =? "tcp")%string.
  - rewrite (run_attempts_cases dflt r w accepts), H7, H8.
    set (cn := fst (chosen (conf r))). set (network := snd (chosen (conf r))).
    pose proof (candidates_length (Z.to_nat (retries cn)) cn w) as Hlen.
    pose proof (retries_pos cn) as Hpos.
    set (cands := candidates (Z.to_nat (retries cn)) cn w) in *.
    destruct (first_free (listens w) network cands) as [k0|] eqn:Ef.
    + apply first_free_Some in Ef. destruct Ef as (Hk & _ & _).
      rewrite (last_map _ _ ""%string).
      * now rewrite last_firstn_S.
      * destruct cands; [cbn [List.length] in Hk; lia | discriminate].
    + rewrite (last_map _ _ ""%string); [reflexivity|].
      destruct cands; [cbn [List.length] in Hlen; lia | discriminate].
Qed.

(** ** More on the TCP allocator *)

(** X9: from any cursor but the largest [int], [tcp.addr] moves the cursor
    to one above the larger of the cursor and 1023 and returns that port
    on 127.0.0.1: the port is at least 1024 and above the old cursor. *)
Theorem tcp_addr_clamps (t : Z) :
  (Go.MinInt <= t < Go.MaxInt)%Z ->
  let p := snd (tcp_addr t) in
  p = (Z.max t 1023 + 1)%Z
  /\ (1024 <= p)%Z
  /\ (t < p)%Z
  /\ fst (tcp_addr t) = ("127.0.0.1:" ++ Go.itoa p)%string.
Proof.
  intros Ht p. subst p. unfold tcp_addr. cbn [fst snd].
  destruct (Z.ltb_spec t 1024) as [Hlt|Hge].
  - change (Go.wrap (1023 + 1)) with 1024%Z. repeat split; lia.
  - rewrite wrap_small by (int_bounds; lia). repeat split; lia.
Qed.

Lemma to_int_not_nil (z : Z) :
  Z.to_int z <> Pos Decimal.Nil /\ Z.to_int z <> Neg Decimal.Nil.
Proof.
  pose proof (DecimalZ.to_of (Z.to_int z)) as H.
  rewrite DecimalZ.of_to in H.
  split; intros E; rewrite E in H; discriminate H.
Qed.

Lemma itoa_inj (a b : Z) : Go.itoa a = Go.itoa b -> a = b.
Proof.
  unfold Go.itoa. intros H.
  destruct (to_int_not_nil a) as [Ha1 Ha2].
  destruct (to_int_not_nil b) as [Hb1 Hb2].
  pose proof (NilZero.isi (Z.to_int a) Ha1 Ha2) as Ia.
  pose proof (NilZero.isi (Z.to_int b) Hb1 Hb2) as Ib.
  rewrite H in Ia. rewrite Ia in Ib. injection Ib as Ib.
  now apply DecimalZ.to_int_inj.
Qed.

Lemma NoDup_firstn {A} (m : nat) (l : list A) :
  NoDup l -> NoDup (firstn m l).
Proof.
  intros H. revert m. induction H as [|x l Hx Hl IH]; intros [|m];
    cbn [firstn]; try constructor; auto.
  intros Hin. apply Hx. now apply In_firstn in Hin.
Qed.

Lemma listened_filter (tr : list event) :
  listened (filter is_Listen tr) = listened tr.
Proof.
  induction tr as [|e tr IH]; [reflexivity|].
  destruct e; cbn [filter is_Listen listened]; congruence.
Qed.

Lemma listened_map (network : string) (l : list string) :
  listened (map (Listen network) l) = l.
Proof. induction l as [|a l IH]; cbn [map listened]; congruence. Qed.

Lemma tcp_candidates_NoDup (n : nat) (w : world) :
  (1023 + Z.of_nat n <= Go.MaxInt)%Z -> NoDup (candidates n new_tcp w).
Proof.
  intros Hn. rewrite candidates_tcp_unset by exact Hn.
  apply NoDup_map_NoDup_ForallPairs; [|apply seq_NoDup].
  intros j k _ _ H. apply append_inj_l in H. apply itoa_inj in H. lia.
Qed.

(** X10: on tcp a run never tries the same address twice: its bind
    attempts are on pairwise different ports. *)
Theorem run_tcp_ports_distinct (dflt r : rpcServer) (w : world)
        (accepts : list (conn + error)) :
  proto (conf r) = "tcp"%string ->
  NoDup (listened (trace_of (run dflt r w accepts))).
Proof.
  intros Ep. rewrite <- listened_filter.
  rewrite (run_attempts_cases dflt r w accepts), listened_map.
  unfold chosen. rewrite Ep. cbn [String.eqb Ascii.eqb Bool.eqb fst snd].
  change (Z.to_nat (retries new_tcp)) with 500.
  assert (Hnd : NoDup (candidates 500 new_tcp w))
    by (apply tcp_candidates_NoDup; int_bounds; lia).
  destruct (first_free (listens w) "tcp" (candidates 500 new_tcp w));
    [now apply NoDup_firstn | exact Hnd].
Qed.

(** ** More on the registry *)

Lemma registry_ok_Register (s : string) (obj : iface) (r : rpcServer) :
  registry_ok s r -> registry_ok s (snd (Register obj r)).
Proof.
  intros (Ho & Hd & Hh & Hs).
  destruct (running r) eqn:Hr.
  - rewrite (Register_running _ _ Hr). cbn [snd]. repeat split; assumption.
  - rewrite (Register_not_running _ _ Hr).
    pose proof (register_cases obj r) as H.
    destruct (TypeOf_Elem obj) as [e|msg] eqn:He; rewrite H; cbn [snd].
    + unfold registry_ok, rpc_Register.
      cbn [objs Server secret set_Server set_objs].
      split; [|split; [|split]].
      * rewrite map_app, Ho. cbn [map]. unfold elem_name. now rewrite He.
      * apply Forall_app. split; [exact Hd|].
        constructor; [|constructor]. now apply TypeOf_Elem_ok_inv with e.
      * destruct (Server r); [discriminate | exact Hh].
      * exact Hs.
    + repeat split; assumption.
Qed.

Lemma registry_ok_history (s : string) (calls : list call) :
  forall r, registry_ok s r -> registry_ok s (history calls r).
Proof.
  induction calls as [|k calls IH]; intros r Hr; [exact Hr|].
  cbn [history fold_left]. fold (history calls (do_call k r)). apply IH.
  destruct k as [obj|w accepts]; cbn [do_call].
  - now apply registry_ok_Register.
  - unfold Run. pose proof (run_server r r w accepts) as H. cbv zeta in H.
    destruct H as (H1 & H2 & H3 & _). destruct Hr as (Ho & Hd & Hh & Hs).
    unfold registry_ok. rewrite H1, H2, H3. repeat split; assumption.
Qed.

(** X11: after any calls of [Register] and [Run], whether they panicked
    or not, the name list is in step with the engine: it holds, in order,
    the element-type name of each object handed to [rpc.Server.Register];
    each of these is of a kind with an element type, the first is the
    control object, and the secret is still the one given at
    construction. *)
Theorem registry_in_step (fl : flags) (s : string) (calls : list call) :
  let r := history calls (snd (newRpcServer fl s)) in
  objs r = map elem_name (Server r)
  /\ List.length (objs r) = List.length (Server r)
  /\ Forall (fun o => dereferenceable o = true) (Server r)
  /\ hd_error (Server r) = Some NewPingoRpc
  /\ secret r = s.
Proof.
  intros r.
  assert (H : registry_ok s r).
  { apply registry_ok_history. repeat split. repeat constructor. }
  destruct H as (Ho & Hd & Hh & Hs).
  split; [exact Ho|]. split; [now rewrite Ho, length_map|].
  repeat split; assumption.
Qed.

(** ** The token round trip *)

Lemma accept_loop_keys (h p k v : string) (accepts : list (conn + error)) :
  In (Output p k v) (accept_loop h accepts) -> k = "fatal"%string.
Proof.
  induction accepts as [|[c|e] rest IH]; cbn [accept_loop In]; intros H.
  - contradiction.
  - destruct H as [H|[H|H]]; try discriminate; auto.
  - destruct H as [H|[H|H]]; try discriminate; auto. now injection H.
Qed.

Lemma run_auth_token (dflt r : rpcServer) (w : world)
      (accepts : list (conn + error)) (p v : string) :
  In (Output p "auth-token" v) (trace_of (run dflt r w accepts)) ->
  v = secret dflt /\ result_of (run dflt r w accepts) = Looping.
Proof.
  pose proof (run_spec dflt r w accepts) as H. cbv zeta in H.
  destruct (first_free (listens w) (snd (chosen (conf r)))
              (candidates (Z.to_nat (retries (fst (chosen (conf r)))))
                          (fst (chosen (conf r))) w)) as [k0|].
  - destruct H as (Hres & _ & _ & Htr). rewrite Htr. intros Hin.
    split; [|exact Hres].
    destruct Hin as [Hin|Hin]; [discriminate|].
    apply in_app_or in Hin. destruct Hin as [Hin|Hin].
    + apply in_map_iff in Hin. destruct Hin as (a & Ha & _). discriminate.
    + apply in_app_or in Hin. destruct Hin as [Hin|Hin].
      * destruct Hin as [Hin|[Hin|[]]]; [|discriminate]. now injection Hin.
      * apply accept_loop_keys in Hin. discriminate.
  - destruct H as (_ & _ & Htr). rewrite Htr. intros Hin. exfalso.
    destruct Hin as [Hin|Hin]; [discriminate|].
    apply in_app_or in Hin. destruct Hin as [Hin|Hin].
    + apply in_map_iff in Hin. destruct Hin as (a & Ha & _). discriminate.
    + destruct Hin as [Hin|[]]. discriminate.
Qed.

Lemma authConn_error_free (r : rpcServer) (c : conn) :
  error_free (incoming c) = true ->
  64 <= List.length (stream (incoming c)) ->
  (fst (authConn r c) = true <->
   firstn 64 (stream (incoming c)) = Go.bytes_of_string (secret r)).
Proof.
  intros Hf Hlen. rewrite authConn_true, ReadFull_buffer.
  unfold delivered. rewrite readLoop_error_free by assumption.
  rewrite length_firstn, Nat.min_l by lia.
  rewrite Nat.sub_diag. cbn [repeat]. now rewrite app_nil_r.
Qed.

Lemma history_secret (calls : list call) :
  forall r, secret (history calls r) = secret r.
Proof.
  induction calls as [|k calls IH]; intros r; [reflexivity|].
  cbn [history fold_left]. fold (history calls (do_call k r)). rewrite IH.
  destruct k as [obj|w accepts]; cbn [do_call].
  - destruct (running r) eqn:Hr.
    + now rewrite (Register_running _ _ Hr).
    + rewrite (Register_not_running _ _ Hr).
      pose proof (register_cases obj r) as H.
      destruct (TypeOf_Elem obj); rewrite H; reflexivity.
  - unfold Run. pose proof (run_server r r w accepts) as H. cbv zeta in H.
    tauto.
Qed.

(** X12: the handshake closes: whatever was registered or run before, if
    [Run] on the default server writes an auth-token line, a peer that
    sends the value of that line as its first 64 bytes, in reads of any
    size and without a read error, is accepted by [authConn]. *)
Theorem auth_token_authenticates (fl : flags) (calls : list call) (w : world)
        (accepts : list (conn + error)) (p v : string) (c : conn) :
  let r := history calls (fst (defaultServer fl)) in
  In (Output p "auth-token" v) (trace_of (Run r w accepts)) ->
  error_free (incoming c) = true ->
  firstn 64 (stream (incoming c)) = Go.bytes_of_string v ->
  fst (authConn (server_of (Run r w accepts)) c) = true.
Proof.
  intros r Hin Hf Hv. unfold Run in *.
  apply run_auth_token in Hin. destruct Hin as [-> _].
  pose proof (run_server r r w accepts) as H. cbv zeta in H.
  destruct H as (Hsec & _).
  assert (Hlen : String.length (secret r) = 64).
  { subst r. rewrite history_secret. apply defaultServer_secret_ok. }
  apply authConn_error_free; [exact Hf| |now rewrite Hsec].
  pose proof (f_equal (@List.length byte) Hv) as Hl.
  rewrite bytes_of_string_length, Hlen, length_firstn in Hl. lia.
Qed.

(** ** From the flags to the listener *)

(** X13: a server built from the command line listens on tcp when the
    proto flag is exactly tcp and on unix otherwise, also when the flag is
    absent or names another scheme; every line it writes carries the
    prefix flag, or pingo when there is none. *)
Theorem flags_select_network (fl : flags) (s : string) (w : world)
        (accepts : list (conn + error)) (e : event) :
  let r := snd (newRpcServer fl s) in
  In e (trace_of (Run r w accepts)) ->
  match e with
  | Listen network _ =>
      network = match flag_proto fl with
                | Some f => if (f =? "tcp")%string then "tcp" else "unix"
                | None => "unix"
                end%string
  | Output pfx _ _ =>
      pfx = match flag_prefix fl with
            | Some f => f
            | None => "pingo"%string
            end
  | _ => True
  end.
Proof.
  intros r Hin. unfold Run in Hin.
  assert (Hp : prefix (conf r) = match flag_prefix fl with
                                 | Some f => f
                                 | None => "pingo"%string
                                 end) by (now destruct fl as [? ? [?|]]).
  assert (Hn : snd (chosen (conf r)) =
               match flag_proto fl with
               | Some f => if (f =? "tcp")%string then "tcp" else "unix"
               | None => "unix"
               end%string).
  { unfold chosen. destruct fl as [[f|] ? ?]; cbn [r newRpcServer]; cbn.
    - now destruct (f =? "tcp")%string.
    - reflexivity. }
  assert (Hacc : forall x, In x (accept_loop (prefix (conf r)) accepts) ->
                 match x with
                 | Output pfx _ _ => pfx = prefix (conf r)
                 | Listen _ _ => False
                 | _ => True
                 end).
  { clear. induction accepts as [|[c|err] rest IH]; cbn [accept_loop In];
      intros x Hx; [contradiction| |];
      destruct Hx as [<-|[<-|Hx]]; try exact I; try reflexivity;
      apply IH; exact Hx. }
  pose proof (run_spec r r w accepts) as H. cbv zeta in H.
  rewrite Hn in H.
  destruct (first_free (listens w) _ _) as [k0|].
  - destruct H as (_ & _ & _ & Htr). rewrite Htr in Hin.
    destruct Hin as [<-|Hin]; [exact Hp|].
    apply in_app_or in Hin. destruct Hin as [Hin|Hin].
    + apply in_map_iff in Hin. destruct Hin as (a & <- & _). reflexivity.
    + apply in_app_or in Hin. destruct Hin as [Hin|Hin].
      * destruct Hin as [<-|[<-|[]]]; exact Hp.
      * specialize (Hacc e Hin). destruct e; auto; try congruence;
          contradiction.
  - destruct H as (_ & _ & Htr). rewrite Htr in Hin.
    destruct Hin as [<-|Hin]; [exact Hp|].
    apply in_app_or in Hin. destruct Hin as [Hin|Hin].
    + apply in_map_iff in Hin. destruct Hin as (a & <- & _). reflexivity.
    + destruct Hin as [<-|[]]. exact Hp.
Qed.

(** ** More on the allocators *)

Lemma Register_conf (obj : iface) (r : rpcServer) :
  conf (snd (Register obj r)) = conf r.
Proof.
  destruct (running r) eqn:Hr.
  - now rewrite (Register_running _ _ Hr).
  - rewrite (Register_not_running _ _ Hr).
    pose proof (register_cases obj r) as H.
    destruct (TypeOf_Elem obj); rewrite H; reflexivity.
Qed.

Lemma history_tcp (calls : list call) :
  forall r, proto (conf r) = "tcp"%string ->
            proto (conf (history calls r)) = "tcp"%string.
Proof.
  induction calls as [|k calls IH]; intros r Hr; [exact Hr|].
  cbn [history fold_left]. fold (history calls (do_call k r)). apply IH.
  destruct k as [obj|w accepts]; cbn [do_call].
  - now rewrite Register_conf.
  - unfold Run. pose proof (run_server r r w accepts) as H. cbv zeta in H.
    destruct H as (_ & _ & _ & _ & _ & _ & Hp & _). rewrite Hp.
    unfold chosen. now rewrite Hr.
Qed.

(** X15: the TCP cursor does not outlive a run: on a server configured
    for tcp, whatever was registered or run before, and however those runs
    ended, every [Run] makes its first bind attempt on 127.0.0.1:1024. *)
Theorem Run_scans_from_1024 (calls : list call) (r : rpcServer) (w : world)
        (accepts : list (conn + error)) :
  proto (conf r) = "tcp"%string ->
  let r' := history calls r in
  proto (conf r') = "tcp"%string
  /\ hd_error (listened (trace_of (Run r' w accepts)))
     = Some "127.0.0.1:1024"%string.
Proof.
  intros Hr r'. subst r'.
  pose proof (history_tcp calls r Hr) as Hp. split; [exact Hp|].
  unfold Run. rewrite <- listened_filter.
  rewrite (run_attempts_cases _ (history calls r) w accepts), listened_map.
  unfold chosen. rewrite Hp. cbn [String.eqb Ascii.eqb Bool.eqb fst snd].
  change (Z.to_nat (retries new_tcp)) with 500.
  rewrite (candidates_tcp_unset 500 w) by (int_bounds; lia).
  change (seq 0 500) with (0 :: seq 1 499). cbn [map].
  destruct (first_free _ _ _); reflexivity.
Qed.

End Pingo.

(** ** The definitions at work on the sample environment *)

Set Warnings "-notation-for-abbreviation".

Local Notation sample_run net :=
  (run Sample.entropy net "/"%char Sample.join Sample.code).
Local Notation sample_Run net :=
  (Run Sample.entropy net "/"%char Sample.join Sample.code).
Local Notation sample_candidates :=
  (candidates Sample.entropy "/"%char Sample.join).
Local Notation unix_server := (Sample.server "unix" "").
Local Notation tcp_server := (Sample.server "tcp" "").
Local Notation busy := "bind: address already in use"%string.

Lemma sample_secret_ok : secret_ok (secret unix_server).
Proof. split; [reflexivity | repeat constructor]. Defined.

Example authConn_accepts_secret :
  fst (authConn unix_server (Sample.peer Sample.secret64)) = true.
Proof. reflexivity. Qed.

Example authConn_rejects_short_read :
  fst (authConn unix_server (Sample.peer "0123456789abcdef")) = false.
Proof. reflexivity. Qed.

Example authConn_rejects_one_byte_off :
  fst (authConn unix_server
         (Sample.peer
            "0123456789abcdef0123456789abcdef0123456789abcdef0123456789abcdeF"))
  = false.
Proof. reflexivity. Qed.

(** The secret may arrive in pieces. *)
Example authConn_accepts_pieces :
  fst (authConn unix_server
         {| incoming :=
              [(Go.bytes_of_string "0123456789abcdef0123456789abcdef", None);
               ([], None);
               (Go.bytes_of_string "0123456789abcdef0123456789abcdef-rest",
                Some "EOF"%string)];
            written := []; closed := false |})
  = true.
Proof. reflexivity. Qed.

Lemma authConn_iff_secret_witness :
  secret_ok (secret unix_server)
  /\ (fst (authConn unix_server (Sample.peer Sample.secret64)) = true <->
      delivered (Sample.peer Sample.secret64) 64
      = Go.bytes_of_string (secret unix_server)).
Proof.
  split; [exact sample_secret_ok|].
  exact (proj1 (authConn_iff_secret unix_server (Sample.peer Sample.secret64)
                  sample_secret_ok)).
Defined.

(** C3, as stated, fails: before [Run], [Register] on a struct value
    panics in the reflection step, with the text of [reflect], and
    registers nothing. *)
Lemma Register_before_Run_panics :
  running unix_server = false
  /\ Register (Val Sample.Arith_t) unix_server
     = (Panic "reflect: Elem of invalid type pingo.Arith", unix_server)
  /\ fst (Register (Val Sample.Arith_t) unix_server) <> Ok tt.
Proof. repeat split; discriminate. Qed.

Lemma Register_lifecycle_witness :
  running unix_server = false
  /\ Forall (fun o => registrable o = true) [Val (ptr_to Sample.Arith_t)]
  /\ fst (Register_all [Val (ptr_to Sample.Arith_t)] unix_server) = Ok tt
  /\ objs (snd (Register_all [Val (ptr_to Sample.Arith_t)] unix_server))
     = ["PingoRpc"%string; "Arith"%string].
Proof.
  assert (H1 : running unix_server = false) by reflexivity.
  assert (H2 : Forall (fun o => registrable o = true)
                      [Val (ptr_to Sample.Arith_t)])
    by (repeat constructor).
  split; [exact H1|]. split; [exact H2|].
  pose proof (Register_lifecycle Sample.entropy (Sample.busy_first 0) "/"%char
                Sample.join Sample.code [Val (ptr_to Sample.Arith_t)]
                unix_server world0 [] Nil H1 H2) as H.
  cbv zeta in H. destruct H as (Hok & Hobjs & _).
  split; [exact Hok | exact Hobjs].
Defined.

Lemma Register_needs_dereferenceable_witness :
  running unix_server = false
  /\ dereferenceable (Val Sample.Arith_t) = false
  /\ exists msg,
       TypeOf_Elem (Val Sample.Arith_t) = Panic msg
       /\ Register (Val Sample.Arith_t) unix_server = (Panic msg, unix_server).
Proof.
  split; [reflexivity|]. split; [reflexivity|].
  exact (proj1 (Register_needs_dereferenceable (Val Sample.Arith_t) unix_server
                  eq_refl eq_refl)).
Defined.

Example Register_nil_panics :
  fst (Register Nil unix_server)
  = Panic "runtime error: invalid memory address or nil pointer dereference".
Proof. reflexivity. Qed.

(** Before [Run], [Register] on a nil [*Arith] passes the reflection step
    and panics inside the engine, after the name was appended. *)
Example Register_nil_pointer_panics :
  running unix_server = false
  /\ dereferenceable (NilOf (ptr_to Sample.Arith_t)) = true
  /\ registrable (NilOf (ptr_to Sample.Arith_t)) = false
  /\ fst (Register (NilOf (ptr_to Sample.Arith_t)) unix_server)
     = Panic "reflect: call of reflect.Value.Type on zero Value"
  /\ objs (snd (Register (NilOf (ptr_to Sample.Arith_t)) unix_server))
     = ["PingoRpc"; "Arith"]%string
  /\ Server (snd (Register (NilOf (ptr_to Sample.Arith_t)) unix_server))
     = [NewPingoRpc; NilOf (ptr_to Sample.Arith_t)].
Proof. repeat split. Qed.

(** A nil map passes both steps: the engine refuses it with an error that
    [register] discards. *)
Example Register_nil_map_returns :
  registrable (NilOf (Composite "" "map[string]int" Map
                        (Plain "int" "int" Int))) = true
  /\ fst (Register (NilOf (Composite "" "map[string]int" Map
                             (Plain "int" "int" Int))) unix_server)
     = Ok tt.
Proof. split; reflexivity. Qed.

(** C5, as stated, fails: after 2^63 - 1024 calls the cursor is the largest
    [int]; the next call wraps around and returns a port below 1024 that
    is not one above the one before. *)
Lemma tcp_addr_wraps :
  let n := Z.to_nat (2 ^ 63 - 1024) in
  tcp_cursor n 0 = Go.MaxInt
  /\ tcp_addr (tcp_cursor n 0)
     = ("127.0.0.1:-9223372036854775808"%string, Go.MinInt)
  /\ (snd (tcp_addr (tcp_cursor n 0)) < 1024)%Z
  /\ snd (tcp_addr (tcp_cursor n 0))
     <> (snd (tcp_addr (tcp_cursor (n - 1) 0)) + 1)%Z.
Proof.
  intros n.
  assert (Hn : Z.of_nat n = (2 ^ 63 - 1024)%Z).
  { subst n. apply Z2Nat.id. int_bounds. lia. }
  clearbody n.
  assert (Hc : tcp_cursor n 0 = Go.MaxInt).
  { destruct n as [|m]; [int_bounds; lia|].
    rewrite tcp_cursor_unset by (int_bounds; lia). int_bounds. lia. }
  assert (Hp : snd (tcp_addr (tcp_cursor (n - 1) 0)) = Go.MaxInt).
  { rewrite tcp_addr_nth by (int_bounds; lia). cbn [snd]. int_bounds. lia. }
  rewrite Hc, Hp.
  repeat split; try reflexivity. discriminate.
Qed.

Lemma tcp_addr_sequence_witness :
  (Z.of_nat 2 < 2 ^ 63 - 1024)%Z
  /\ tcp_addr (tcp_cursor 2 0) = ("127.0.0.1:1026"%string, 1026%Z).
Proof.
  assert (H : (Z.of_nat 2 < 2 ^ 63 - 1024)%Z) by reflexivity.
  split; [exact H|].
  exact (proj1 (proj2 (tcp_addr_sequence 2 H))).
Defined.

Example tcp_first_three :
  sample_candidates 3 new_tcp world0
  = ["127.0.0.1:1024"; "127.0.0.1:1025"; "127.0.0.1:1026"]%string.
Proof. reflexivity. Qed.

(** The collisions of the specification, run. *)

Example unix_three_collisions :
  let out := sample_run (Sample.busy_first 3) unix_server unix_server world0 [] in
  result_of out = Looping
  /\ trace_of out
     = [Output "pingo" "objects" "PingoRpc";
        Listen "unix" "abcdefgh"; Listen "unix" "ijklmnop";
        Listen "unix" "qrstuvwx"; Listen "unix" "yzabcdef";
        Output "pingo" "auth-token" Sample.secret64;
        Output "pingo" "ready" "proto=unix addr=yzabcdef"]%string.
Proof. split; reflexivity. Qed.

Example unix_all_taken :
  let out := sample_run (Sample.busy_first 4) unix_server unix_server world0 [] in
  result_of out = Returned busy
  /\ trace_of out
     = [Output "pingo" "objects" "PingoRpc";
        Listen "unix" "abcdefgh"; Listen "unix" "ijklmnop";
        Listen "unix" "qrstuvwx"; Listen "unix" "yzabcdef";
        Output "pingo" "fatal"
          "err-connection-failed: Could not connect in 4 attemps, using unix protocol"]%string.
Proof. split; reflexivity. Qed.

Example tcp_only_1524_free :
  let out := sample_run (Sample.only_free "127.0.0.1:1524")
                        tcp_server tcp_server world0 [] in
  result_of out = Returned busy
  /\ List.length (filter is_Listen (trace_of out)) = 500
  /\ last (trace_of out) Accept
     = Output "pingo" "fatal"
         "err-connection-failed: Could not connect in 500 attemps, using tcp protocol"
  /\ addr (conf (server_of out)) = "127.0.0.1:1523"%string.
Proof. vm_compute. repeat split. Qed.

Example accept_errors_do_not_stop_the_loop :
  trace_of (sample_run (Sample.busy_first 0) unix_server unix_server world0
              [inr "too many open files"%string; inl (Sample.peer "x")])
  = [Output "pingo" "objects" "PingoRpc";
     Listen "unix" "abcdefgh";
     Output "pingo" "auth-token" Sample.secret64;
     Output "pingo" "ready" "proto=unix addr=abcdefgh";
     Accept;
     Output "pingo" "fatal" "err-http-serve: too many open files";
     Accept;
     GoServe (Sample.peer "x")]%string.
Proof. reflexivity. Qed.

Lemma run_bind_retry_witness :
  let cands := sample_candidates 4 new_unix world0 in
  let out := sample_run (Sample.busy_first 3) unix_server unix_server world0 [] in
  (forall j, j < 3 ->
     Sample.busy_first 3 (listens world0 + j) "unix"
       (nth j cands ""%string) <> None)
  /\ Sample.busy_first 3 (listens world0 + 3) "unix" (nth 3 cands ""%string)
     = None
  /\ result_of out = Looping
  /\ addr (conf (server_of out)) = nth 3 cands ""%string.
Proof.
  intros cands out.
  assert (H1 : forall j, j < 3 ->
                 Sample.busy_first 3 (listens world0 + j) "unix"
                   (nth j cands ""%string) <> None).
  { intros j Hj. unfold Sample.busy_first. cbn [listens world0 Nat.add].
    destruct (Nat.ltb_spec j 3); [discriminate | lia]. }
  assert (H2 : Sample.busy_first 3 (listens world0 + 3) "unix"
                 (nth 3 cands ""%string) = None) by reflexivity.
  split; [exact H1|]. split; [exact H2|].
  pose proof (run_bind_retry Sample.entropy (Sample.busy_first 3) "/"%char
                Sample.join Sample.code unix_server unix_server world0 [])
    as H.
  cbv zeta in H. destruct H as (_ & _ & H & _).
  destruct (H 3 ltac:(unfold unix_retries; cbn; lia) H1 H2) as (Hr & Ha & _).
  split; [exact Hr | exact Ha].
Defined.

Lemma run_handshake_order_witness :
  let out := sample_Run (Sample.busy_first 3) unix_server world0 [] in
  (exists k, k < 4
             /\ Sample.busy_first 3 (listens world0 + k) "unix"
                  (nth k (sample_candidates 4 new_unix world0) ""%string)
                = None)
  /\ count_key "objects" (trace_of out) = 1
  /\ count_key "auth-token" (trace_of out) = 1
  /\ count_key "ready" (trace_of out) = 1.
Proof.
  intros out.
  assert (Hb : exists k, k < 4
             /\ Sample.busy_first 3 (listens world0 + k) "unix"
                  (nth k (sample_candidates 4 new_unix world0) ""%string)
                = None).
  { exists 3. split; [lia | reflexivity]. }
  split; [exact Hb|].
  pose proof (run_handshake_order Sample.entropy (Sample.busy_first 3) "/"%char
                Sample.join Sample.code unix_server world0 []) as H.
  cbv zeta in H. destruct H as (_ & Ho & _ & Hyes & _).
  destruct (Hyes Hb) as [Ha Hr].
  split; [exact Ho|]. split; [exact Ha | exact Hr].
Defined.

Lemma fatal_line_on_exhaustion_witness :
  let out := sample_run (Sample.busy_first 4) unix_server unix_server world0 [] in
  result_of out = Returned busy
  /\ last (trace_of out) Accept
     = Output "pingo" "fatal"
         (fatal_bind Sample.code new_unix "unix")
  /\ fatal_bind Sample.code new_unix "unix"
     <> spec_fatal_line Sample.code 4 "unix".
Proof.
  intros out.
  assert (H : result_of out = Returned busy) by reflexivity.
  split; [exact H|].
  pose proof (fatal_line_on_exhaustion Sample.entropy (Sample.busy_first 4)
                "/"%char Sample.join Sample.code unix_server unix_server
                world0 [] busy H) as H'.
  cbv zeta in H'. destruct H' as (Hl & _ & Hne).
  split; [exact Hl | exact Hne].
Defined.

(** A configured directory is not used: [run] tries the bare name, where
    the allocator given the directory would have joined the two. *)
Example unixdir_configured_and_unused :
  let r := Sample.server "unix" "/tmp/plug" in
  unixdir (conf r) = "/tmp/plug"%string
  /\ trace_of (sample_Run (Sample.busy_first 0) r world0 [])
     = [Output "pingo" "objects" "PingoRpc";
        Listen "unix" "abcdefgh";
        Output "pingo" "auth-token" Sample.secret64;
        Output "pingo" "ready" "proto=unix addr=abcdefgh"]%string
  /\ fst (unix_addr Sample.entropy "/"%char Sample.join "/tmp/plug" world0)
     = "/tmp/plug/abcdefgh"%string.
Proof. repeat split. Qed.

Lemma run_ignores_unixdir_witness :
  let r := Sample.server "unix" "" in
  let out := sample_run (Sample.busy_first 0) unix_server
               (set_conf (set_unixdir "/tmp/plug" (conf r)) r) world0 [] in
  In (Listen "unix" "abcdefgh") (trace_of out)
  /\ String.length "abcdefgh" = 8
  /\ trace_of out
     = trace_of (sample_run (Sample.busy_first 0) unix_server r world0 []).
Proof.
  intros r out.
  assert (Hin : In (Listen "unix" "abcdefgh") (trace_of out))
    by (right; left; reflexivity).
  split; [exact Hin|].
  pose proof (run_ignores_unixdir Sample.entropy (Sample.busy_first 0) "/"%char
                Sample.join Sample.code unix_server r world0 [] "/tmp/plug")
    as H.
  cbv zeta in H. destruct H as (Htr & _ & _ & Hbare).
  split; [exact (proj1 (Hbare _ Hin)) | exact Htr].
Defined.

(** Two peers at once, one with the secret and one without. *)
Example two_peers_interleaved :
  exec Sample.engine unix_server
       [Spawn (Sample.peer "guess"); Spawn (Sample.peer Sample.secret64);
        Step 1; Step 0; Step 1; Step 0; Step 1]
       []
  = ([{| g_conn := {| incoming := []; written := []; closed := true |};
         g_pc := Finished |};
      {| g_conn := {| incoming := [];
                      written := Go.bytes_of_string "reply";
                      closed := true |};
         g_pc := Finished |}],
     [(1, DoRead); (0, DoRead); (1, DoServeConn); (0, DoClose); (1, DoClose)]).
Proof. reflexivity. Qed.

Lemma serveConn_rejects_witness :
  let acts := [Spawn (Sample.peer "guess"); Spawn (Sample.peer Sample.secret64);
               Step 1; Step 0; Step 1; Step 0; Step 1] in
  secret_ok (secret unix_server)
  /\ delivered (Sample.peer "guess") 64 <> Go.bytes_of_string (secret unix_server)
  /\ nth_error (spawned acts) 0 = Some (Sample.peer "guess")
  /\ ~ In (0, DoServeConn) (snd (exec Sample.engine unix_server acts []))
  /\ written (fst (serveConn Sample.engine unix_server (Sample.peer "guess")))
     = written (Sample.peer "guess").
Proof.
  intros acts.
  assert (H2 : delivered (Sample.peer "guess") 64
               <> Go.bytes_of_string (secret unix_server))
    by (intros H; discriminate H).
  assert (H3 : nth_error (spawned acts) 0 = Some (Sample.peer "guess"))
    by reflexivity.
  split; [exact sample_secret_ok|]. split; [exact H2|]. split; [exact H3|].
  pose proof (serveConn_rejects Sample.engine unix_server acts 0
                (Sample.peer "guess") sample_secret_ok H2 H3) as H.
  destruct H as ((_ & Hw & _) & Hno & _).
  split; [exact Hno | exact Hw].
Defined.

(** ** The further properties at work *)

Example authConn_leaves_the_rest :
  incoming (snd (authConn unix_server
                   (Sample.peer2 Sample.secret64 "call frame")))
  = [(Go.bytes_of_string "call frame", None)].
Proof. reflexivity. Qed.

Lemma authConn_ignores_chunking_witness :
  let c1 := Sample.peer Sample.secret64 in
  let c2 := Sample.peer2 "0123456789abcdef0123456789abcdef0123"
                         "456789abcdef0123456789abcdef" in
  error_free (incoming c1) = true
  /\ error_free (incoming c2) = true
  /\ stream (incoming c1) = stream (incoming c2)
  /\ fst (authConn unix_server c1) = fst (authConn unix_server c2).
Proof.
  intros c1 c2.
  assert (H1 : error_free (incoming c1) = true) by reflexivity.
  assert (H2 : error_free (incoming c2) = true) by reflexivity.
  assert (H3 : stream (incoming c1) = stream (incoming c2)) by reflexivity.
  split; [exact H1|]. split; [exact H2|]. split; [exact H3|].
  exact (proj1 (authConn_ignores_chunking unix_server c1 c2 H1 H2 H3)).
Defined.

Lemma authConn_needs_64_byte_secret_witness :
  String.length (secret (Sample.server_with "short")) <> 64
  /\ fst (authConn (Sample.server_with "short") (Sample.peer "short")) = false.
Proof.
  assert (H : String.length (secret (Sample.server_with "short")) <> 64)
    by (intros E; discriminate E).
  split; [exact H|].
  exact (authConn_needs_64_byte_secret _ (Sample.peer "short") H).
Defined.

Lemma authConn_zero_tail_witness :
  let r := Sample.server_with Sample.zero_tailed in
  let c := Sample.peer Sample.sixty in
  String.length (secret r) = 64
  /\ Go.bytes_of_string (secret r) = delivered c 64 ++ repeat Ascii.zero 4
  /\ List.length (delivered c 64) = 60
  /\ fst (authConn r c) = true.
Proof.
  intros r c.
  assert (H1 : String.length (secret r) = 64) by reflexivity.
  assert (H2 : Go.bytes_of_string (secret r)
               = delivered c 64 ++ repeat Ascii.zero 4) by reflexivity.
  split; [exact H1|]. split; [exact H2|]. split; [reflexivity|].
  exact (authConn_zero_tail r c 4 H1 H2).
Defined.

Lemma serveConn_paths_witness :
  let c := Sample.peer2 Sample.secret64 "call frame" in
  secret_ok (secret unix_server)
  /\ fst (authConn unix_server c) = true
  /\ stream (incoming c)
     = Go.bytes_of_string (secret unix_server)
         ++ stream (incoming (snd (authConn unix_server c))).
Proof.
  intros c.
  assert (H : fst (authConn unix_server c) = true) by reflexivity.
  split; [exact sample_secret_ok|]. split; [exact H|].
  exact (proj2 (proj2 (proj2 (serveConn_paths Sample.engine unix_server c)))
               sample_secret_ok H).
Defined.

Lemma goroutine_event_order_witness :
  let acts := [Spawn (Sample.peer "guess"); Spawn (Sample.peer Sample.secret64);
               Step 1; Step 0; Step 1] in
  nth_error (spawned acts) 1 = Some (Sample.peer Sample.secret64)
  /\ exists k,
       events_of 1 (snd (exec Sample.engine unix_server acts []))
       = firstn k (serve_events unix_server (Sample.peer Sample.secret64)).
Proof.
  intros acts.
  assert (H : nth_error (spawned acts) 1 = Some (Sample.peer Sample.secret64))
    by reflexivity.
  split; [exact H|].
  exact (proj1 (goroutine_event_order Sample.engine unix_server acts 1
                  (Sample.peer Sample.secret64) H)).
Defined.

Lemma run_accept_loop_witness :
  let accepts := [inr "too many open files"%string; inl (Sample.peer "x")] in
  result_of (sample_run (Sample.busy_first 0) unix_server unix_server world0 [])
  = Looping
  /\ served (trace_of (sample_run (Sample.busy_first 0) unix_server unix_server
                         world0 accepts))
     = [Sample.peer "x"].
Proof.
  intros accepts.
  assert (H : result_of (sample_run (Sample.busy_first 0) unix_server
                           unix_server world0 []) = Looping) by reflexivity.
  split; [exact H|].
  pose proof (run_accept_loop Sample.entropy (Sample.busy_first 0) "/"%char
                Sample.join Sample.code unix_server unix_server world0
                accepts H) as H'.
  cbv zeta in H'. destruct H' as (_ & _ & _ & Hs & _). exact Hs.
Defined.

Lemma tcp_addr_clamps_witness :
  (Go.MinInt <= -5 < Go.MaxInt)%Z
  /\ snd (tcp_addr (-5)) = (Z.max (-5) 1023 + 1)%Z.
Proof.
  assert (H : (Go.MinInt <= -5 < Go.MaxInt)%Z) by (int_bounds; lia).
  split; [exact H|].
  exact (proj1 (tcp_addr_clamps (-5) H)).
Defined.

Lemma run_tcp_ports_distinct_witness :
  proto (conf tcp_server) = "tcp"%string
  /\ NoDup (listened (trace_of (sample_run (Sample.busy_first 3) tcp_server
                                   tcp_server world0 []))).
Proof.
  assert (H : proto (conf tcp_server) = "tcp"%string) by reflexivity.
  split; [exact H|].
  exact (run_tcp_ports_distinct Sample.entropy (Sample.busy_first 3) "/"%char
           Sample.join Sample.code tcp_server tcp_server world0 [] H).
Defined.

Example registry_after_a_refused_call :
  let r := history Sample.entropy (Sample.busy_first 0) "/"%char Sample.join
             Sample.code
             [CallRegister (Val Sample.Arith_t);
              CallRegister (Val (ptr_to Sample.Arith_t));
              CallRun world0 [];
              CallRegister (Val (ptr_to Sample.Arith_t))]
             unix_server in
  objs r = ["PingoRpc"; "Arith"]%string
  /\ Server r = [NewPingoRpc; Val (ptr_to Sample.Arith_t)].
Proof. split; reflexivity. Qed.

Lemma auth_token_authenticates_witness :
  let r := fst (defaultServer Sample.entropy Sample.no_flags) in
  let v := secret r in
  let c := {| incoming := [(Go.bytes_of_string v, None);
                           (Go.bytes_of_string "call frame", None)];
              written := []; closed := false |} in
  In (Output "pingo" "auth-token" v)
     (trace_of (sample_Run (Sample.busy_first 0) r world0 []))
  /\ error_free (incoming c) = true
  /\ firstn 64 (stream (incoming c)) = Go.bytes_of_string v
  /\ fst (authConn (server_of (sample_Run (Sample.busy_first 0) r world0 [])) c)
     = true.
Proof.
  intros r v c.
  assert (H1 : In (Output "pingo" "auth-token" v)
                  (trace_of (sample_Run (Sample.busy_first 0) r world0 [])))
    by (right; right; left; reflexivity).
  assert (H2 : error_free (incoming c) = true) by reflexivity.
  assert (H3 : firstn 64 (stream (incoming c)) = Go.bytes_of_string v)
    by reflexivity.
  split; [exact H1|]. split; [exact H2|]. split; [exact H3|].
  exact (auth_token_authenticates Sample.entropy (Sample.busy_first 0) "/"%char
           Sample.join Sample.code Sample.no_flags [] world0 [] "pingo" v c
           H1 H2 H3).
Defined.

Lemma flags_select_network_witness :
  let r := snd (newRpcServer
                  {| flag_proto := Some "udp"%string; flag_unixdir := None;
                     flag_prefix := Some "plug"%string |} Sample.secret64) in
  In (Listen "unix" "abcdefgh")
     (trace_of (sample_Run (Sample.busy_first 0) r world0 []))
  /\ "unix"%string = (if ("udp" =? "tcp")%string then "tcp" else "unix")%string.
Proof.
  intros r.
  assert (H : In (Listen "unix" "abcdefgh")
                 (trace_of (sample_Run (Sample.busy_first 0) r world0 [])))
    by (right; left; reflexivity).
  split; [exact H|].
  exact (flags_select_network Sample.entropy (Sample.busy_first 0) "/"%char
           Sample.join Sample.code
           {| flag_proto := Some "udp"%string; flag_unixdir := None;
              flag_prefix := Some "plug"%string |}
           Sample.secret64 world0 [] (Listen "unix" "abcdefgh") H).
Defined.

Lemma Run_scans_from_1024_witness :
  let calls := [CallRun world0 []; CallRegister NewPingoRpc; CallRun world0 []] in
  let r' := history Sample.entropy (Sample.busy_first 2) "/"%char Sample.join
              Sample.code calls tcp_server in
  proto (conf tcp_server) = "tcp"%string
  /\ hd_error (listened (trace_of (sample_Run (Sample.busy_first 2) r' world0 [])))
     = Some "127.0.0.1:1024"%string.
Proof.
  intros calls r'.
  assert (H : proto (conf tcp_server) = "tcp"%string) by reflexivity.
  split; [exact H|].
  exact (proj2 (Run_scans_from_1024 Sample.entropy (Sample.busy_first 2)
                  "/"%char Sample.join Sample.code calls tcp_server world0 []
                  H)).
Defined.
